(** * Horizon add-on: a shallow embedding of [horizon.py]

    The add-on is a set of seven operators over the host's scene.  The
    operators are embedded as functions from a [context] to an operator
    result; the host primitives they call ([bpy.ops...]) are embedded as
    functions on the same [context], each with a comment saying which
    documented host behaviour it stands for. *)

From Stdlib Require Import QArith Qcanon.
From stdpp Require Import numbers sorting strings list fin_maps gmap.

Local Open Scope string_scope.
Local Open Scope nat_scope.
Local Open Scope stdpp_scope.
Local Open Scope list_scope.

(** ** Python string operations used by the operators *)

Module Py.

(** [s[n:]] *)
Fixpoint drop (n : nat) (s : string) : string :=
  match n, s with
  | O, _ => s
  | S _, EmptyString => EmptyString
  | S n', String _ s' => drop n' s'
  end.

(** [s[:n]] for a non-negative [n] *)
Fixpoint take (n : nat) (s : string) : string :=
  match n, s with
  | O, _ => EmptyString
  | S _, EmptyString => EmptyString
  | S n', String a s' => String a (take n' s')
  end.

(** [s[:-n]] where [n] is a length.  Python reads a negative stop as an
    offset from the end, but [-0] is the integer [0]: [s[:-0]] is
    [s[:0]], the empty string. *)
Definition slice_to_neg (n : nat) (s : string) : string :=
  match n with
  | O => take 0 s
  | S _ => take (String.length s - n) s
  end.

(** [s.startswith(p)] *)
Definition startswith (s p : string) : bool := String.prefix p s.

(** [s.endswith(x)] *)
Definition endswith (s x : string) : bool :=
  (String.length x <=? String.length s)%nat
  && String.eqb (drop (String.length s - String.length x) s) x.

(** [x in l] for a list of strings *)
Definition str_in (x : string) (l : list string) : bool :=
  existsb (String.eqb x) l.

End Py.

(** The name computed at lines 129-134 of [horizon.py]: [None] when the
    material name does not start with the prefix. *)
Definition extracted (prefix suffix mat_name : string) : option string :=
  if Py.startswith mat_name prefix then
    let stripped := Py.drop (String.length prefix) mat_name in
    if Py.endswith stripped suffix
    then Some (Py.slice_to_neg (String.length suffix) stripped)
    else Some stripped
  else None.

(** ** The host's scene

    Objects and materials live in host-owned stores and are handled
    through pointers: a material slot holds a pointer to a material, so a
    rename is seen through every slot that holds the same pointer. *)

Abbreviation obj_ptr := nat (only parsing).
Abbreviation mat_ptr := nat (only parsing).

Inductive object_type := MESH | CURVE | EMPTY | CAMERA | LIGHT.
Inductive object_mode := OBJECT | EDIT | SCULPT | WEIGHT_PAINT.

Global Instance object_type_eq_dec : EqDecision object_type.
Proof. solve_decision. Defined.
Global Instance object_mode_eq_dec : EqDecision object_mode.
Proof. solve_decision. Defined.

Record vec3 := Vec3 { vx : Qc; vy : Qc; vz : Qc }.

(** Component-wise product, the way the host scales a vector. *)
Definition vmul (a b : vec3) : vec3 :=
  Vec3 (vx a * vx b)%Qc (vy a * vy b)%Qc (vz a * vz b)%Qc.

Definition vone : vec3 := Vec3 1%Qc 1%Qc 1%Qc.

Record face := Face {
  face_verts : list nat;
  material_index : nat;
  face_select : bool }.

Inductive modifier_type := TRIANGULATE | SUBSURF | MIRROR.
Inductive quad_method_t :=
  QUAD_BEAUTY | QUAD_FIXED | QUAD_FIXED_ALTERNATE
| QUAD_SHORTEST_DIAGONAL | QUAD_LONGEST_DIAGONAL.
Inductive ngon_method_t := NGON_BEAUTY | NGON_CLIP.

Record modifier := Modifier {
  mod_name : string;
  mod_type : modifier_type;
  quad_method : quad_method_t;
  ngon_method : ngon_method_t;
  keep_custom_normals : bool }.

Record object := Object {
  type : object_type;
  location : vec3;
  rotation_euler : vec3;
  scale : vec3;
  vertices : list vec3;                  (* obj.data, object space *)
  faces : list face;                     (* obj.data *)
  material_slots : list (option mat_ptr);
  active_material_index : nat;
  vertex_groups : list string;
  custom_props : gmap string Z;          (* obj.keys() / obj[key] *)
  modifiers : list modifier;
  mode : object_mode;
  selected : bool }.

Record context := Context {
  objects : gmap obj_ptr object;              (* bpy.data.objects *)
  materials : gmap mat_ptr string;            (* bpy.data.materials: name of each *)
  active_object : option obj_ptr;             (* view_layer.objects.active *)
  horizon_scale_factor : Qc;
  horizon_mat_prefix : string;
  horizon_mat_suffix : string;
  horizon_remove_material : option mat_ptr }.

(** *** Field updates *)

Definition set_scale (v : vec3) (o : object) : object :=
  Object (type o) (location o) (rotation_euler o) v (vertices o) (faces o)
    (material_slots o) (active_material_index o) (vertex_groups o)
    (custom_props o) (modifiers o) (mode o) (selected o).

Definition set_vertices (vs : list vec3) (o : object) : object :=
  Object (type o) (location o) (rotation_euler o) (scale o) vs (faces o)
    (material_slots o) (active_material_index o) (vertex_groups o)
    (custom_props o) (modifiers o) (mode o) (selected o).

Definition set_faces (fs : list face) (o : object) : object :=
  Object (type o) (location o) (rotation_euler o) (scale o) (vertices o) fs
    (material_slots o) (active_material_index o) (vertex_groups o)
    (custom_props o) (modifiers o) (mode o) (selected o).

Definition set_material_slots (ss : list (option mat_ptr)) (o : object) : object :=
  Object (type o) (location o) (rotation_euler o) (scale o) (vertices o)
    (faces o) ss (active_material_index o) (vertex_groups o)
    (custom_props o) (modifiers o) (mode o) (selected o).

Definition set_active_material_index (i : nat) (o : object) : object :=
  Object (type o) (location o) (rotation_euler o) (scale o) (vertices o)
    (faces o) (material_slots o) i (vertex_groups o)
    (custom_props o) (modifiers o) (mode o) (selected o).

Definition set_vertex_groups (gs : list string) (o : object) : object :=
  Object (type o) (location o) (rotation_euler o) (scale o) (vertices o)
    (faces o) (material_slots o) (active_material_index o) gs
    (custom_props o) (modifiers o) (mode o) (selected o).

Definition set_custom_props (ps : gmap string Z) (o : object) : object :=
  Object (type o) (location o) (rotation_euler o) (scale o) (vertices o)
    (faces o) (material_slots o) (active_material_index o) (vertex_groups o)
    ps (modifiers o) (mode o) (selected o).

Definition set_modifiers (ms : list modifier) (o : object) : object :=
  Object (type o) (location o) (rotation_euler o) (scale o) (vertices o)
    (faces o) (material_slots o) (active_material_index o) (vertex_groups o)
    (custom_props o) ms (mode o) (selected o).

Definition set_mode (m : object_mode) (o : object) : object :=
  Object (type o) (location o) (rotation_euler o) (scale o) (vertices o)
    (faces o) (material_slots o) (active_material_index o) (vertex_groups o)
    (custom_props o) (modifiers o) m (selected o).

Definition set_objects (os : gmap obj_ptr object) (c : context) : context :=
  Context os (materials c) (active_object c) (horizon_scale_factor c)
    (horizon_mat_prefix c) (horizon_mat_suffix c) (horizon_remove_material c).

Definition set_materials (ms : gmap mat_ptr string) (c : context) : context :=
  Context (objects c) ms (active_object c) (horizon_scale_factor c)
    (horizon_mat_prefix c) (horizon_mat_suffix c) (horizon_remove_material c).

(** [context.view_layer.objects.active = obj] *)
Definition set_active (a : option obj_ptr) (c : context) : context :=
  Context (objects c) (materials c) a (horizon_scale_factor c)
    (horizon_mat_prefix c) (horizon_mat_suffix c) (horizon_remove_material c).

(** An in-place edit of the object behind a pointer. *)
Definition update_object (p : obj_ptr) (f : object → object) (c : context) : context :=
  set_objects (alter f p (objects c)) c.

(** An in-place edit of the active object, if there is one. *)
Definition update_active (f : object → object) (c : context) : context :=
  match active_object c with
  | Some p => update_object p f c
  | None => c
  end.

(** [context.selected_objects]: the objects whose selection flag is set,
    each once, in the store's order. *)
Definition selected_objects (c : context) : list obj_ptr :=
  omap (λ po : obj_ptr * object, if selected po.2 then Some po.1 else None)
       (map_to_list (objects c)).

(** [[obj for obj in context.selected_objects if obj.type == 'MESH']] *)
Definition is_mesh (c : context) (p : obj_ptr) : bool :=
  match objects c !! p with
  | Some o => bool_decide (type o = MESH)
  | None => false
  end.

Definition selected_meshes (c : context) : list obj_ptr :=
  filter (λ obj, is_mesh c obj = true) (selected_objects c).

(** ** Operator results *)

Inductive status := FINISHED | CANCELLED.
Inductive report := WARNING (message : string).

Record result := Result {
  res_status : status;
  res_reports : list report;   (* what [self.report] was called with, in order *)
  res_context : context }.

(** ** Host primitives

    These are the host's, not the add-on's: each is the documented effect
    of the call on the part of the scene the operators look at.  Host
    errors (a call the host refuses) are outside the model. *)

(** [bpy.ops.transform.resize(value=v)]: the scale of every selected
    object is multiplied by [v]. *)
Definition resize_object (v : vec3) (o : object) : object :=
  if selected o then set_scale (vmul (scale o) v) o else o.

Definition transform_resize (v : vec3) (c : context) : context :=
  set_objects (resize_object v <$> objects c) c.

(** Scale-baking: the scale is folded into the vertex data and the
    reported scale becomes 1.0; location and rotation are not applied. *)
Definition bake_scale (o : object) : object :=
  set_scale vone (set_vertices (vmul (scale o) <$> vertices o) o).

(** [bpy.ops.object.transform_apply(location=False, rotation=False,
    scale=True)], on the active object, as the operators use it (one call
    per object, each made active first).  Baking a scale of 1.0 changes
    nothing, so a host that bakes every selected object at each call gives
    the same scene. *)
Definition transform_apply_scale (c : context) : context :=
  update_active bake_scale c.

(** What removing slot [i] does to a face's slot index. *)
Definition reindex_face (i : nat) (f : face) : face :=
  if (0 <? material_index f)%nat && (i <=? material_index f)%nat
  then Face (face_verts f) (material_index f - 1) (face_select f)
  else f.

(** [bpy.ops.object.material_slot_remove()]: removes the slot at the
    active material index of the active object. *)
Definition remove_active_slot (o : object) : object :=
  let i := active_material_index o in
  if decide (i < length (material_slots o))%nat then
    let ss := delete i (material_slots o) in
    set_active_material_index (Nat.min i (length ss - 1))
      (set_faces (reindex_face i <$> faces o) (set_material_slots ss o))
  else o.

Definition material_slot_remove (c : context) : context :=
  update_active remove_active_slot c.

(** [bpy.ops.object.mode_set(mode=m)], on the active object. *)
Definition mode_set (m : object_mode) (c : context) : context :=
  update_active (set_mode m) c.

Definition set_face_select (b : bool) (f : face) : face :=
  Face (face_verts f) (material_index f) b.

(** [bpy.ops.mesh.select_all(action='DESELECT')] *)
Definition mesh_select_all_deselect (c : context) : context :=
  update_active (λ o, set_faces (set_face_select false <$> faces o) o) c.

(** [bpy.ops.mesh.delete(type='FACE')]: deletes the selected faces. *)
Definition mesh_delete_face (c : context) : context :=
  update_active
    (λ o, set_faces (filter (λ f, face_select f = false) (faces o)) o) c.

(** [bpy.data.materials.get(name)] *)
Definition materials_get (mats : gmap mat_ptr string) (name : string) : option mat_ptr :=
  (λ r : nat * (mat_ptr * string), r.2.1)
    <$> list_find (λ pn : mat_ptr * string, pn.2 = name) (map_to_list mats).

(** [material.name = name], for a name no material has.  (The host puts
    a default in place of an empty name; the store keeps the name the
    operator passed.) *)
Definition material_rename (m : mat_ptr) (name : string)
    (mats : gmap mat_ptr string) : gmap mat_ptr string :=
  <[m := name]> mats.

(** [obj.modifiers.new(name=..., type=...)]: a modifier with the host's
    defaults goes to the end of the stack.  (The host makes the name unique
    in the stack by a numeric suffix; the record keeps the name asked
    for.) *)
Definition modifier_default (name : string) (ty : modifier_type) : modifier :=
  Modifier name ty QUAD_SHORTEST_DIAGONAL NGON_BEAUTY false.

Definition modifiers_new (name : string) (ty : modifier_type) (o : object) : object :=
  set_modifiers (modifiers o ++ [modifier_default name ty]) o.

Definition set_quad_method (q : quad_method_t) (m : modifier) : modifier :=
  Modifier (mod_name m) (mod_type m) q (ngon_method m) (keep_custom_normals m).
Definition set_ngon_method (n : ngon_method_t) (m : modifier) : modifier :=
  Modifier (mod_name m) (mod_type m) (quad_method m) n (keep_custom_normals m).
Definition set_keep_custom_normals (b : bool) (m : modifier) : modifier :=
  Modifier (mod_name m) (mod_type m) (quad_method m) (ngon_method m) b.

(** An edit through the handle of the modifier at position [k]. *)
Definition update_modifier (k : nat) (f : modifier → modifier) (o : object) : object :=
  set_modifiers (alter f k (modifiers o)) o.

(** ** The operators *)

(** *** Scale Up / Scale Down *)

(** Lines 53-56 and 83-86: the per-object bake. *)
Definition apply_scale_each (objs : list obj_ptr) (c : context) : context :=
  foldl (λ c obj, transform_apply_scale (set_active (Some obj) c)) c objs.

Definition scale_up_execute (c : context) : result :=
  let factor := horizon_scale_factor c in
  if bool_decide (factor ≤ 0)%Qc then Result CANCELLED [] c
  else
    let selected_objs := selected_objects c in
    if bool_decide (selected_objs = [])
    then Result CANCELLED [WARNING "No objects selected"] c
    else
      let c1 := transform_resize (Vec3 factor factor factor) c in
      let active_obj := active_object c1 in
      let c2 := apply_scale_each selected_objs c1 in
      Result FINISHED [] (set_active active_obj c2).

Definition scale_down_execute (c : context) : result :=
  let factor := horizon_scale_factor c in
  if bool_decide (factor ≤ 0)%Qc then Result CANCELLED [] c
  else
    let selected_objs := selected_objects c in
    if bool_decide (selected_objs = [])
    then Result CANCELLED [WARNING "No objects selected"] c
    else
      let c1 :=
        transform_resize (Vec3 (1 / factor) (1 / factor) (1 / factor))%Qc c in
      let active_obj := active_object c1 in
      let c2 := apply_scale_each selected_objs c1 in
      Result FINISHED [] (set_active active_obj c2).

(** *** Clean Up Mats *)

Definition to_remove : list string :=
  ["models/DefaultMaterial.vertex"; "textures/__TB_empty.vertex"].

(** [obj.material_slots] through the pointer. *)
Definition obj_slots (c : context) (obj : obj_ptr) : list (option mat_ptr) :=
  from_option material_slots [] (objects c !! obj).

(** [slot.material and slot.material.name in to_remove] *)
Definition slot_denied (mats : gmap mat_ptr string) (slot : option mat_ptr) : bool :=
  match slot with
  | Some m =>
      match mats !! m with
      | Some name => Py.str_in name to_remove
      | None => false
      end
  | None => false
  end.

(** Lines 115-118: the indices collected by the [enumerate] loop,
    counting from [i]. *)
Fixpoint slots_to_remove_from (i : nat) (mats : gmap mat_ptr string)
    (slots : list (option mat_ptr)) : list nat :=
  match slots with
  | [] => []
  | slot :: rest =>
      if slot_denied mats slot
      then i :: slots_to_remove_from (S i) mats rest
      else slots_to_remove_from (S i) mats rest
  end.

(** [sorted(l, reverse=True)] *)
Definition sorted_reverse (l : list nat) : list nat :=
  merge_sort (flip (≤)) l.

(** Lines 121-123. *)
Definition remove_slot_at (obj : obj_ptr) (c : context) (i : nat) : context :=
  material_slot_remove (update_object obj (set_active_material_index i) c).

Definition remove_denied_slots (obj : obj_ptr) (c : context) : context :=
  let slots_to_remove := slots_to_remove_from 0 (materials c) (obj_slots c obj) in
  foldl (remove_slot_at obj) c (sorted_reverse slots_to_remove).

(** Lines 127-139, for one slot: the slot's new content and the new
    material store.  A pointer to no material does not occur in a host
    scene; the step leaves such a slot alone. *)
Definition process_slot (prefix suffix : string) (mats : gmap mat_ptr string)
    (slot : option mat_ptr) : option mat_ptr * gmap mat_ptr string :=
  match slot with
  | None => (slot, mats)
  | Some m =>
      match mats !! m with
      | None => (slot, mats)
      | Some mat_name =>
          match extracted prefix suffix mat_name with
          | None => (slot, mats)
          | Some e =>
              match materials_get mats e with
              | Some existing_mat => (Some existing_mat, mats)
              | None => (slot, material_rename m e mats)
              end
          end
      end
  end.

(** Line 126: the loop over the slots, in order, each step seeing the
    renames of the steps before it. *)
Fixpoint rename_slots (prefix suffix : string) (slots : list (option mat_ptr))
    (mats : gmap mat_ptr string) : list (option mat_ptr) * gmap mat_ptr string :=
  match slots with
  | [] => ([], mats)
  | slot :: rest =>
      let r1 := process_slot prefix suffix mats slot in
      let r2 := rename_slots prefix suffix rest r1.2 in
      (r1.1 :: r2.1, r2.2)
  end.

Definition rename_pass (prefix suffix : string) (obj : obj_ptr) (c : context) : context :=
  let r := rename_slots prefix suffix (obj_slots c obj) (materials c) in
  set_materials r.2 (update_object obj (set_material_slots r.1) c).

(** Lines 112-139: the body of the loop over the selected meshes. *)
Definition clean_up_object (prefix suffix : string) (c : context) (obj : obj_ptr) : context :=
  rename_pass prefix suffix obj
    (remove_denied_slots obj (set_active (Some obj) c)).

Definition clean_up_mats_execute (c : context) : result :=
  let prefix := horizon_mat_prefix c in
  let suffix := horizon_mat_suffix c in
  let selected_objs := selected_meshes c in
  if bool_decide (selected_objs = [])
  then Result CANCELLED [WARNING "No meshes selected"] c
  else
    let active_obj := active_object c in
    let c1 := foldl (clean_up_object prefix suffix) c selected_objs in
    Result FINISHED [] (set_active active_obj c1).

(** *** Remove Geo *)

(** Line 169: [[i for i, slot in enumerate(slots) if slot.material == mat]],
    counting from [i]. *)
Fixpoint slot_indices_from (i : nat) (mat : mat_ptr)
    (slots : list (option mat_ptr)) : list nat :=
  match slots with
  | [] => []
  | slot :: rest =>
      if bool_decide (slot = Some mat)
      then i :: slot_indices_from (S i) mat rest
      else slot_indices_from (S i) mat rest
  end.

(** Lines 180-183. *)
Definition select_matching (slot_indices : list nat) (f : face) : face :=
  if bool_decide (material_index f ∈ slot_indices)
  then set_face_select true f
  else f.

Definition select_faces_by_slot (slot_indices : list nat) (o : object) : object :=
  set_faces (select_matching slot_indices <$> faces o) o.

(** Lines 166-190: the body of the loop over the selected meshes. *)
Definition remove_geo_object (mat : mat_ptr) (c : context) (obj : obj_ptr) : context :=
  let c0 := set_active (Some obj) c in
  let slot_indices := slot_indices_from 0 mat (obj_slots c0 obj) in
  if bool_decide (slot_indices = []) then c0
  else
    let c1 := mode_set EDIT c0 in
    let c2 := mesh_select_all_deselect c1 in
    let c3 := update_object obj (select_faces_by_slot slot_indices) c2 in
    let c4 := mesh_delete_face c3 in
    mode_set OBJECT c4.

Definition remove_geo_execute (c : context) : result :=
  match horizon_remove_material c with
  | None => Result CANCELLED [WARNING "No material selected"] c
  | Some mat =>
      let selected_meshes := selected_meshes c in
      if bool_decide (selected_meshes = [])
      then Result CANCELLED [WARNING "No meshes selected"] c
      else
        let active_obj := active_object c in
        let c1 := foldl (remove_geo_object mat) c selected_meshes in
        Result FINISHED [] (set_active active_obj c1)
  end.

(** *** Remove Vertex Groups *)

(** Lines 213-214: [while obj.vertex_groups: remove the first one]. *)
Fixpoint remove_all_vertex_groups (groups : list string) : list string :=
  match groups with
  | [] => []
  | _ :: rest => remove_all_vertex_groups rest
  end.

Definition remove_vert_groups_object (c : context) (obj : obj_ptr) : context :=
  update_object obj
    (λ o, set_vertex_groups (remove_all_vertex_groups (vertex_groups o)) o)
    (set_active (Some obj) c).

Definition remove_vert_groups_execute (c : context) : result :=
  let selected_meshes := selected_meshes c in
  if bool_decide (selected_meshes = [])
  then Result CANCELLED [WARNING "No meshes selected"] c
  else
    let active_obj := active_object c in
    let c1 := foldl remove_vert_groups_object c selected_meshes in
    Result FINISHED [] (set_active active_obj c1).

(** *** Remove Custom Props *)

(** Lines 235-238. *)
Definition remove_props (props : gmap string Z) : gmap string Z :=
  let keys := (map_to_list props).*1 in
  foldl (λ ps key, if Py.str_in key ["_RNA_UI"] then ps else delete key ps)
        props keys.

Definition remove_cust_props_object (c : context) (obj : obj_ptr) : context :=
  update_object obj (λ o, set_custom_props (remove_props (custom_props o)) o)
    (set_active (Some obj) c).

Definition remove_cust_props_execute (c : context) : result :=
  let selected_objs := selected_objects c in
  if bool_decide (selected_objs = [])
  then Result CANCELLED [WARNING "No objects selected"] c
  else
    let active_obj := active_object c in
    let c1 := foldl remove_cust_props_object c selected_objs in
    Result FINISHED [] (set_active active_obj c1).

(** *** Triangulate Mod *)

(** Lines 259-262; [mod_] is the handle of the modifier just added. *)
Definition add_triangulate (o : object) : object :=
  let o1 := modifiers_new "Triangulate" TRIANGULATE o in
  let mod_ := (length (modifiers o1) - 1)%nat in
  let o2 := update_modifier mod_ (set_quad_method QUAD_BEAUTY) o1 in
  let o3 := update_modifier mod_ (set_ngon_method NGON_BEAUTY) o2 in
  update_modifier mod_ (set_keep_custom_normals true) o3.

Definition triangulate_mod_object (c : context) (obj : obj_ptr) : context :=
  update_object obj add_triangulate (set_active (Some obj) c).

Definition triangulate_mod_execute (c : context) : result :=
  let selected_objs := selected_meshes c in
  if bool_decide (selected_objs = [])
  then Result CANCELLED [WARNING "No meshes selected"] c
  else
    let active_obj := active_object c in
    let c1 := foldl triangulate_mod_object c selected_objs in
    Result FINISHED [] (set_active active_obj c1).

(** The seven operators behind one name each. *)
Inductive operator :=
  ScaleUp | ScaleDown | CleanUpMats | RemoveGeo
| RemoveVertGroups | RemoveCustProps | TriangulateMod.

Definition execute (op : operator) : context → result :=
  match op with
  | ScaleUp => scale_up_execute
  | ScaleDown => scale_down_execute
  | CleanUpMats => clean_up_mats_execute
  | RemoveGeo => remove_geo_execute
  | RemoveVertGroups => remove_vert_groups_execute
  | RemoveCustProps => remove_cust_props_execute
  | TriangulateMod => triangulate_mod_execute
  end.

(** ** The loop bodies, on the object they are given *)

(** What the removal loop of Clean Up Mats (lines 121-123) does to the
    object it works on, for the indices it is given. *)
Definition remove_slots_effect (idxs : list nat) (o : object) : object :=
  foldl (λ o i, remove_active_slot (set_active_material_index i o)) o idxs.

(** The slots of a mesh that the deny-list of Clean Up Mats lets
    through, in the scene [c]. *)
Definition kept_slots (c : context) (obj : obj_ptr) : list (option mat_ptr) :=
  filter (λ s, slot_denied (materials c) s = false) (obj_slots c obj).

(** What the body of the Remove Geo loop (lines 166-190) does to the
    object it is given: the host calls of the body, composed on that
    object. *)
Definition remove_geo_effect (mat : mat_ptr) (o : object) : object :=
  let slot_indices := slot_indices_from 0 mat (material_slots o) in
  if bool_decide (slot_indices = []) then o
  else
    let o1 := set_mode EDIT o in
    let o2 := set_faces (set_face_select false <$> faces o1) o1 in
    let o3 := select_faces_by_slot slot_indices o2 in
    let o4 := set_faces (filter (λ f, face_select f = false) (faces o3)) o3 in
    set_mode OBJECT o4.

(** ** Vocabulary of the specification *)

(** The selection an operator looks at: every selected object for the
    scale operators and Remove Custom Props, the selected meshes for the
    others. *)
Definition relevant_selection (op : operator) (c : context) : list obj_ptr :=
  match op with
  | ScaleUp | ScaleDown | RemoveCustProps => selected_objects c
  | CleanUpMats | RemoveGeo | RemoveVertGroups | TriangulateMod =>
      selected_meshes c
  end.

(** The scale operators are the ones that read the factor. *)
Definition reads_factor (op : operator) : bool :=
  match op with
  | ScaleUp | ScaleDown => true
  | _ => false
  end.

(** The three precondition failures of section 7 of the specification. *)
Inductive precondition_fails (op : operator) (c : context) : Prop :=
| empty_selection :
    relevant_selection op c = [] → precondition_fails op c
| nonpositive_factor :
    reads_factor op = true → (horizon_scale_factor c ≤ 0)%Qc →
    precondition_fails op c
| no_material :
    op = RemoveGeo → horizon_remove_material c = None →
    precondition_fails op c.

(** The first guard of the scale operators fires. *)
Definition factor_rejected (op : operator) (c : context) : bool :=
  reads_factor op && bool_decide (horizon_scale_factor c ≤ 0)%Qc.

(** A face whose material-slot index is bound to material [mat] on
    object [o]. *)
Definition bound_to (mat : mat_ptr) (o : object) (f : face) : Prop :=
  material_slots o !! material_index f = Some (Some mat).

Global Instance bound_to_dec mat o f : Decision (bound_to mat o f).
Proof. unfold bound_to. apply _. Defined.


(** ** Sample scenes *)

Definition qz (n : Z) : Qc := Q2Qc (inject_Z n).

Definition v3 (x y z : Z) : vec3 := Vec3 (qz x) (qz y) (qz z).

Definition sample_object (ty : object_type) (sel : bool) (s : vec3)
    (slots : list (option mat_ptr)) (fs : list face) (md : object_mode) : object :=
  Object ty (v3 5 0 0) (v3 0 0 0) s [v3 1 0 0; v3 0 1 0; v3 0 0 1] fs slots 0
         ["arm"; "leg"] {[ "a" := 1%Z; "_RNA_UI" := 0%Z ]} [] md sel.

(** Three objects (a selected mesh in edit mode with scale 2, a selected
    curve, an unselected mesh that is the active object) and four
    materials; the scene parameters are the defaults of [register], with
    factor 2 and material 11 chosen for removal. *)
Definition sample_scene : context :=
  Context
    {[ 1 := sample_object MESH true (v3 2 2 2)
              [Some 10; None; Some 11; Some 12]
              [Face [0; 1; 2] 0 false; Face [0; 1; 2] 2 true; Face [0; 1; 2] 3 false]
              EDIT;
       2 := sample_object CURVE true (v3 1 1 1) [] [] OBJECT;
       3 := sample_object MESH false (v3 1 1 1) [Some 10] [] OBJECT ]}
    {[ 10 := "models/DefaultMaterial.vertex";
       11 := "textures/atrium/brick01.vertex";
       12 := "textures/atrium/wood.vertex";
       13 := "brick01" ]}
    (Some 3) (qz 2) "textures/atrium/" ".vertex" (Some 11).

Definition with_factor (f : Qc) (c : context) : context :=
  Context (objects c) (materials c) (active_object c) f
    (horizon_mat_prefix c) (horizon_mat_suffix c) (horizon_remove_material c).


Definition with_remove_material (m : option mat_ptr) (c : context) : context :=
  Context (objects c) (materials c) (active_object c) (horizon_scale_factor c)
    (horizon_mat_prefix c) (horizon_mat_suffix c) m.

(** A selected mesh of ten faces, four of them on slot 1, which holds
    material 11; material 11 is the one chosen for removal. *)
Definition ten_face_mesh : object :=
  sample_object MESH true (v3 1 1 1) [Some 10; Some 11; Some 12]
    [Face [0; 1; 2] 0 false; Face [0; 1; 2] 1 false; Face [0; 1; 2] 1 true;
     Face [0; 1; 2] 0 false; Face [0; 1; 2] 2 false; Face [0; 1; 2] 1 false;
     Face [0; 1; 2] 0 true; Face [0; 1; 2] 1 false; Face [0; 1; 2] 2 false;
     Face [0; 1; 2] 0 false]
    OBJECT.

Definition ten_face_scene : context :=
  Context {[ 1 := ten_face_mesh ]}
    {[ 10 := "stone"; 11 := "glass"; 12 := "wood" ]}
    None (qz 2) "textures/atrium/" ".vertex" (Some 11).

(** One selected mesh with one slot, whose material is named with the
    default prefix and no suffix; the configured suffix is empty. *)
Definition empty_suffix_scene : context :=
  Context
    {[ 1 := sample_object MESH true (v3 1 1 1) [Some 1]
              [Face [0; 1; 2] 0 false] OBJECT ]}
    {[ 1 := "textures/atrium/brick01" ]}
    (Some 1) (qz 2) "textures/atrium/" "" None.



(** ** More vocabulary: what an operator may and may not touch *)

(** The four scene parameters of [register]. *)
Definition scene_params (c : context) : Qc * string * string * option mat_ptr :=
  (horizon_scale_factor c, horizon_mat_prefix c, horizon_mat_suffix c,
   horizon_remove_material c).

(** Clean Up Mats is the one operator that writes to the material store. *)
Definition writes_materials (op : operator) : bool :=
  match op with
  | CleanUpMats => true
  | _ => false
  end.

(** The custom properties that Remove Custom Props leaves: the reserved
    key, if the object has it. *)
Definition reserved_props (props : gmap string Z) : gmap string Z :=
  filter (λ kv : string * Z, kv.1 = "_RNA_UI") props.

(** No two materials of the store have the same name. *)
Definition names_unique (mats : gmap mat_ptr string) : Prop :=
  ∀ m1 m2 name, mats !! m1 = Some name → mats !! m2 = Some name → m1 = m2.

(** What an operator does to one object of its selection, for the six
    operators whose loop body edits nothing but the object it is given.
    (The body of Clean Up Mats also reads and writes the material store; it
    is described by [kept_slots] and [rename_slots] instead.) *)
Definition object_effect (op : operator) (c : context) (o : object) : object :=
  let f := horizon_scale_factor c in
  match op with
  | ScaleUp =>
      if bool_decide (f ≤ 0)%Qc then o
      else bake_scale (resize_object (Vec3 f f f) o)
  | ScaleDown =>
      if bool_decide (f ≤ 0)%Qc then o
      else bake_scale (resize_object (Vec3 (1 / f) (1 / f) (1 / f))%Qc o)
  | RemoveGeo =>
      match horizon_remove_material c with
      | Some mat => remove_geo_effect mat o
      | None => o
      end
  | RemoveVertGroups =>
      set_vertex_groups (remove_all_vertex_groups (vertex_groups o)) o
  | RemoveCustProps =>
      set_custom_props (remove_props (custom_props o)) o
  | TriangulateMod => add_triangulate o
  | CleanUpMats => o
  end.

(** The operators that can be run again on their own result without
    further change. *)
Definition idempotent_operator (op : operator) : bool :=
  match op with
  | RemoveGeo | RemoveVertGroups | RemoveCustProps => true
  | _ => false
  end.

(** ** Registration and the panel

    The host keeps a registry of the classes that add-ons have registered
    and of the properties that add-ons have attached to its scene type.
    [register] and [unregister] are runs of statements over that registry;
    a statement that the host refuses raises, and the run stops there with
    the registry as the statements before it left it. *)

Inductive class_kind := OPERATOR | PANEL.

Record bl_class := BlClass {
  class_name : string;
  bl_idname : string;
  bl_label : string;
  kind : class_kind }.

Global Instance class_kind_eq_dec : EqDecision class_kind.
Proof. solve_decision. Defined.
Global Instance bl_class_eq_dec : EqDecision bl_class.
Proof. solve_decision. Defined.

Definition HorizonScaleUpOperator : bl_class :=
  BlClass "HorizonScaleUpOperator" "horizon.scale_up" "Scale Up" OPERATOR.
Definition HorizonScaleDownOperator : bl_class :=
  BlClass "HorizonScaleDownOperator" "horizon.scale_down" "Scale Down" OPERATOR.
Definition HorizonCleanUpMatsOperator : bl_class :=
  BlClass "HorizonCleanUpMatsOperator" "horizon.clean_up_mats" "Clean Up Mats"
          OPERATOR.
Definition HorizonRemoveGeoOperator : bl_class :=
  BlClass "HorizonRemoveGeoOperator" "horizon.remove_geo" "Remove Geo" OPERATOR.
Definition HorizonRemoveVertGroupsOperator : bl_class :=
  BlClass "HorizonRemoveVertGroupsOperator" "horizon.remove_vert_groups"
          "Remove Vertex Groups" OPERATOR.
Definition HorizonRemoveCustPropsOperator : bl_class :=
  BlClass "HorizonRemoveCustPropsOperator" "horizon.remove_cust_props"
          "Remove Custom Props" OPERATOR.
Definition HorizonTriangulateModOperator : bl_class :=
  BlClass "HorizonTriangulateModOperator" "horizon.triangulate_mod"
          "Triangulate Mod" OPERATOR.
Definition HorizonPanel : bl_class :=
  BlClass "HorizonPanel" "VIEW3D_PT_horizon" "Horizon" PANEL.

(** The class behind each operator of [execute]. *)
Definition operator_class (op : operator) : bl_class :=
  match op with
  | ScaleUp => HorizonScaleUpOperator
  | ScaleDown => HorizonScaleDownOperator
  | CleanUpMats => HorizonCleanUpMatsOperator
  | RemoveGeo => HorizonRemoveGeoOperator
  | RemoveVertGroups => HorizonRemoveVertGroupsOperator
  | RemoveCustProps => HorizonRemoveCustPropsOperator
  | TriangulateMod => HorizonTriangulateModOperator
  end.

Inductive property :=
| FloatProperty (name description : string) (default min : Qc) (unit_ : string)
| StringProperty (name description default : string)
| PointerProperty (name description type_ : string).

Global Instance property_eq_dec : EqDecision property.
Proof. solve_decision. Defined.

Record registry := Registry {
  scene_properties : gmap string property;   (* attributes of bpy.types.Scene *)
  registered_classes : list bl_class }.

Inductive exn :=
| ValueError (cls : string)      (* register_class: already registered *)
| RuntimeError (cls : string)    (* unregister_class: not registered *)
| AttributeError (attr : string) (* del: no such attribute *).

Inductive outcome :=
| Returned (r : registry)
| Raised (e : exn) (r : registry).

(** One statement after another; nothing runs after a raise. *)
Definition and_then (o : outcome) (stmt : registry → outcome) : outcome :=
  match o with
  | Returned r => stmt r
  | Raised e r => Raised e r
  end.

Definition run (stmts : list (registry → outcome)) (r : registry) : outcome :=
  foldl and_then (Returned r) stmts.

(** [bpy.types.Scene.<attr> = prop] *)
Definition set_scene_property (attr : string) (prop : property)
    (r : registry) : outcome :=
  Returned (Registry (<[attr := prop]> (scene_properties r))
                     (registered_classes r)).

(** [del bpy.types.Scene.<attr>] *)
Definition del_scene_property (attr : string) (r : registry) : outcome :=
  match scene_properties r !! attr with
  | Some _ =>
      Returned (Registry (delete attr (scene_properties r))
                         (registered_classes r))
  | None => Raised (AttributeError attr) r
  end.

(** [bpy.utils.register_class(cls)] *)
Definition register_class (cls : bl_class) (r : registry) : outcome :=
  if decide (cls ∈ registered_classes r)
  then Raised (ValueError (class_name cls)) r
  else Returned (Registry (scene_properties r) (registered_classes r ++ [cls])).

(** [bpy.utils.unregister_class(cls)] *)
Definition unregister_class (cls : bl_class) (r : registry) : outcome :=
  if decide (cls ∈ registered_classes r)
  then Returned (Registry (scene_properties r)
                          (filter (λ x, x ≠ cls) (registered_classes r)))
  else Raised (RuntimeError (class_name cls)) r.

Definition horizon_scale_factor_property : property :=
  FloatProperty "Scale Factor" "Factor to scale by (positive value > 0)"
                (Q2Qc (268364 # 10000)) (Q2Qc 0) "LENGTH".
Definition horizon_mat_prefix_property : property :=
  StringProperty "Material Prefix" "Prefix for material names to extract"
                 "textures/atrium/".
Definition horizon_mat_suffix_property : property :=
  StringProperty "Material Suffix" "Suffix for material names to extract"
                 ".vertex".
Definition horizon_remove_material_property : property :=
  PointerProperty "Material to Remove"
                  "Select a material to remove geometry using it" "Material".

(** Lines 295-325. *)
Definition register : registry → outcome :=
  run [ set_scene_property "horizon_scale_factor" horizon_scale_factor_property;
        set_scene_property "horizon_mat_prefix" horizon_mat_prefix_property;
        set_scene_property "horizon_mat_suffix" horizon_mat_suffix_property;
        set_scene_property "horizon_remove_material"
                           horizon_remove_material_property;
        register_class HorizonScaleUpOperator;
        register_class HorizonScaleDownOperator;
        register_class HorizonCleanUpMatsOperator;
        register_class HorizonRemoveGeoOperator;
        register_class HorizonRemoveVertGroupsOperator;
        register_class HorizonRemoveCustPropsOperator;
        register_class HorizonTriangulateModOperator;
        register_class HorizonPanel ].

(** Lines 327-339. *)
Definition unregister : registry → outcome :=
  run [ unregister_class HorizonPanel;
        unregister_class HorizonTriangulateModOperator;
        unregister_class HorizonRemoveCustPropsOperator;
        unregister_class HorizonRemoveVertGroupsOperator;
        unregister_class HorizonRemoveGeoOperator;
        unregister_class HorizonCleanUpMatsOperator;
        unregister_class HorizonScaleDownOperator;
        unregister_class HorizonScaleUpOperator;
        del_scene_property "horizon_remove_material";
        del_scene_property "horizon_mat_suffix";
        del_scene_property "horizon_mat_prefix";
        del_scene_property "horizon_scale_factor" ].

(** The classes and the scene attributes of the add-on, in the order
    [register] goes through them. *)
Definition horizon_classes : list bl_class :=
  [ HorizonScaleUpOperator; HorizonScaleDownOperator;
    HorizonCleanUpMatsOperator; HorizonRemoveGeoOperator;
    HorizonRemoveVertGroupsOperator; HorizonRemoveCustPropsOperator;
    HorizonTriangulateModOperator; HorizonPanel ].

Definition horizon_properties : list (string * property) :=
  [ ("horizon_scale_factor", horizon_scale_factor_property);
    ("horizon_mat_prefix", horizon_mat_prefix_property);
    ("horizon_mat_suffix", horizon_mat_suffix_property);
    ("horizon_remove_material", horizon_remove_material_property) ].

(** The assignment of one scene attribute, and a store of scene
    attributes with some of them deleted. *)
Definition set_one (kv : string * property) : registry → outcome :=
  set_scene_property kv.1 kv.2.

Definition deleted (attrs : list string) (m : gmap string property) :
    gmap string property :=
  foldl (λ m attr, delete attr m) m attrs.

(** What [HorizonPanel.draw] (lines 275-293) lays out. *)
Inductive widget :=
| PropField (attr text : string)          (* layout.prop(context.scene, attr, text=...) *)
| OperatorButton (idname text : string).  (* layout.operator(idname, text=...) *)

Global Instance widget_eq_dec : EqDecision widget.
Proof. solve_decision. Defined.

Inductive layout_item :=
| Item (w : widget)
| Row (ws : list widget).

Definition HorizonPanel_draw : list layout_item :=
  [ Item (PropField "horizon_scale_factor" "Scale Factor");
    Row [ OperatorButton "horizon.scale_up" "Scale Up";
          OperatorButton "horizon.scale_down" "Scale Down" ];
    Item (PropField "horizon_mat_prefix" "Mat Prefix");
    Item (PropField "horizon_mat_suffix" "Mat Suffix");
    Item (OperatorButton "horizon.clean_up_mats" "Clean Up Mats");
    Item (PropField "horizon_remove_material" "Material to Remove");
    Item (OperatorButton "horizon.remove_geo" "Remove Geo");
    Item (OperatorButton "horizon.remove_vert_groups" "Remove Vert Groups");
    Item (OperatorButton "horizon.remove_cust_props" "Remove Cust Props");
    Item (OperatorButton "horizon.triangulate_mod" "Triangulate Mod") ].

(** The widgets of a layout, rows opened up, in drawing order. *)
Definition widgets (items : list layout_item) : list widget :=
  items ≫= λ item, match item with Item w => [w] | Row ws => ws end.

(** A widget that the host can resolve against a registry: a field of a
    scene attribute that exists, or a button of a registered operator. *)
Definition resolves (r : registry) (w : widget) : Prop :=
  match w with
  | PropField attr _ => is_Some (scene_properties r !! attr)
  | OperatorButton idname _ =>
      ∃ cls, cls ∈ registered_classes r ∧ kind cls = OPERATOR
             ∧ bl_idname cls = idname
  end.

(** A registry with two classes of another add-on and one scene attribute
    of its own. *)
Definition sample_registry : registry :=
  Registry {[ "other_addon_size" :=
                FloatProperty "Size" "A size" (Q2Qc 1) (Q2Qc 0) "NONE" ]}
           [ BlClass "OtherOperator" "other.run" "Run" OPERATOR;
             BlClass "OtherPanel" "VIEW3D_PT_other" "Other" PANEL ].

(** The names of the scene attributes of the add-on. *)
Definition horizon_attrs : list string := horizon_properties.*1.

(** The scene attributes after the four assignments of [register]. *)
Definition with_horizon_properties (m : gmap string property) :
    gmap string property :=
  foldl (λ m kv, <[kv.1 := kv.2]> m) m horizon_properties.

(** The sample registry after [register]. *)
Definition sample_registered : registry :=
  Registry (with_horizon_properties (scene_properties sample_registry))
           (registered_classes sample_registry ++ horizon_classes).

(** What of an object has nothing to do with materials: its transform,
    vertex data, vertex groups, custom properties, modifier stack and mode,
    and the vertices and selection state of each of its faces. *)
Definition material_free_part (o : object) :=
  (location o, rotation_euler o, scale o, vertices o, vertex_groups o,
   custom_props o, modifiers o, mode o,
   (λ f, (face_verts f, face_select f)) <$> faces o).

(** * Properties *)

(** ** Python string operations *)

Example extracted_brick :
  extracted "textures/atrium/" ".vertex" "textures/atrium/brick01.vertex"
  = Some "brick01".
Proof. reflexivity. Qed.

Example extracted_other :
  extracted "textures/atrium/" ".vertex" "textures/hall/brick01.vertex" = None.
Proof. reflexivity. Qed.

Example extracted_no_suffix :
  extracted "textures/atrium/" ".vertex" "textures/atrium/brick01"
  = Some "brick01".
Proof. reflexivity. Qed.

Lemma app_String a (s t : string) : String a s +:+ t = String a (s +:+ t).
Proof. reflexivity. Qed.

Lemma app_empty_l (t : string) : "" +:+ t = t.
Proof. reflexivity. Qed.

Lemma app_empty_r (s : string) : s +:+ "" = s.
Proof. induction s as [|a s IH]; [done|]. by rewrite app_String, IH. Qed.

Lemma length_app_str (s t : string) :
  String.length (s +:+ t) = String.length s + String.length t.
Proof.
  induction s as [|a s IH]; [done|]. rewrite app_String. simpl. by rewrite IH.
Qed.

Lemma drop_app_str (p r : string) : Py.drop (String.length p) (p +:+ r) = r.
Proof. induction p as [|a p IH]; [by destruct r|]. by rewrite app_String. Qed.

Lemma take_app_str (r x : string) : Py.take (String.length r) (r +:+ x) = r.
Proof.
  induction r as [|a r IH]; [by destruct x|]. rewrite app_String. simpl.
  by rewrite IH.
Qed.

Lemma take_drop_str n (s : string) : Py.take n s +:+ Py.drop n s = s.
Proof.
  revert s. induction n as [|n IH]; intros [|a s]; simpl; try done.
  by rewrite app_String, IH.
Qed.

Lemma startswith_app (p r : string) : Py.startswith (p +:+ r) p = true.
Proof.
  unfold Py.startswith. induction p as [|a p IH]; [by destruct r|].
  rewrite app_String. simpl. by destruct (Ascii.ascii_dec a a).
Qed.

Lemma startswith_inv (s p : string) :
  Py.startswith s p = true → s = p +:+ Py.drop (String.length p) s.
Proof.
  unfold Py.startswith. revert s.
  induction p as [|a p IH]; intros s Hp; [by destruct s|].
  destruct s as [|b s]; [done|]. simpl in Hp.
  destruct (Ascii.ascii_dec a b) as [->|]; [|done].
  rewrite app_String. simpl. by rewrite <-IH.
Qed.


Lemma endswith_app (r x : string) : Py.endswith (r +:+ x) x = true.
Proof.
  unfold Py.endswith. rewrite length_app_str.
  replace (String.length r + String.length x - String.length x)
    with (String.length r) by lia.
  rewrite drop_app_str, String.eqb_refl.
  apply andb_true_iff. split; [|done]. apply Nat.leb_le. lia.
Qed.

Lemma endswith_inv (s x : string) :
  Py.endswith s x = true →
  s = Py.take (String.length s - String.length x) s +:+ x.
Proof.
  unfold Py.endswith. intros [_ Heq%String.eqb_eq]%andb_true_iff.
  pose proof (take_drop_str (String.length s - String.length x) s) as Htd.
  by rewrite Heq in Htd.
Qed.

Lemma endswith_empty (s : string) : Py.endswith s "" = true.
Proof. rewrite <-(app_empty_r s) at 1. apply endswith_app. Qed.

Lemma str_in_elem_of (x : string) (l : list string) :
  Py.str_in x l = true ↔ x ∈ l.
Proof.
  unfold Py.str_in. induction l as [|y l IH]; simpl.
  - rewrite elem_of_nil. naive_solver.
  - rewrite elem_of_cons, orb_true_iff, IH, String.eqb_eq. done.
Qed.

(** The name computed for a material, case by case. *)

Lemma extracted_not_prefixed prefix suffix name :
  Py.startswith name prefix = false → extracted prefix suffix name = None.
Proof. intros Hp. unfold extracted. by rewrite Hp. Qed.

Lemma extracted_suffixed prefix suffix core :
  suffix ≠ "" →
  extracted prefix suffix (prefix +:+ core +:+ suffix) = Some core.
Proof.
  intros Hne. unfold extracted.
  rewrite startswith_app, drop_app_str, endswith_app. f_equal.
  unfold Py.slice_to_neg. destruct (String.length suffix) eqn:Hlen.
  { by destruct suffix. }
  rewrite <-Hlen, length_app_str.
  replace (String.length core + String.length suffix - String.length suffix)
    with (String.length core) by lia.
  apply take_app_str.
Qed.

Lemma extracted_unsuffixed prefix suffix rest :
  Py.endswith rest suffix = false →
  extracted prefix suffix (prefix +:+ rest) = Some rest.
Proof.
  intros Hs. unfold extracted. by rewrite startswith_app, drop_app_str, Hs.
Qed.

(** With an empty suffix the stop of the slice is [-0], that is [0]: the
    whole remainder goes. *)
Lemma extracted_empty_suffix prefix rest :
  extracted prefix "" (prefix +:+ rest) = Some "".
Proof.
  unfold extracted. rewrite startswith_app, drop_app_str, endswith_empty.
  by destruct rest.
Qed.

(** ** The selection *)

Lemma NoDup_omap_fst {A B} (P : B → bool) (l : list (A * B)) :
  NoDup l.*1 →
  NoDup (omap (λ po : A * B, if P po.2 then Some po.1 else None) l).
Proof.
  induction l as [|[a b] l IH]; simpl; [constructor|].
  intros [Ha Hl]%NoDup_cons. destruct (P b); [|by auto].
  apply NoDup_cons; split; [|by auto].
  intros [[a' b'] [Hin Hs]]%list_elem_of_omap. simpl in Hs.
  destruct (P b'); simplify_eq.
  apply Ha, list_elem_of_fmap. by exists (a, b').
Qed.

Lemma NoDup_selected_objects c : NoDup (selected_objects c).
Proof. apply NoDup_omap_fst, NoDup_fst_map_to_list. Qed.

Lemma elem_of_selected_objects c p :
  p ∈ selected_objects c ↔ ∃ o, objects c !! p = Some o ∧ selected o = true.
Proof.
  unfold selected_objects. rewrite list_elem_of_omap. split.
  - intros [[q o] [Hin Hs]]. simpl in Hs.
    destruct (selected o) eqn:E; simplify_eq.
    exists o. split; [by apply elem_of_map_to_list|done].
  - intros (o & Ho & Hs). exists (p, o).
    split; [by apply elem_of_map_to_list|]. simpl. by rewrite Hs.
Qed.

Lemma NoDup_selected_meshes c : NoDup (selected_meshes c).
Proof. apply NoDup_filter, NoDup_selected_objects. Qed.

Lemma elem_of_selected_meshes c p :
  p ∈ selected_meshes c ↔
  ∃ o, objects c !! p = Some o ∧ selected o = true ∧ type o = MESH.
Proof.
  unfold selected_meshes.
  rewrite list_elem_of_filter, elem_of_selected_objects.
  unfold is_mesh. split.
  - intros [Hm (o & Ho & Hs)]. rewrite Ho in Hm.
    apply bool_decide_eq_true in Hm. eauto.
  - intros (o & Ho & Hs & Hm). split; [|eauto].
    rewrite Ho. by apply bool_decide_eq_true.
Qed.

(** ** Loops over the selection

    A loop whose body edits only the object it was given has, on every
    object, the effect of one body or of none. *)

Section per_object_loop.
Context (step : context → obj_ptr → context) (g : object → object).
Hypothesis step_objects : ∀ c obj p,
  objects (step c obj) !! p =
  if decide (p = obj) then g <$> objects c !! p else objects c !! p.

Lemma loop_objects l c p :
  NoDup l →
  objects (foldl step c l) !! p =
  if decide (p ∈ l) then g <$> objects c !! p else objects c !! p.
Proof.
  revert c. induction l as [|x l IH]; intros c Hnd; simpl.
  - done.
  - apply NoDup_cons in Hnd as [Hx Hl]. rewrite IH by done.
    rewrite step_objects.
    destruct (decide (p = x)) as [->|Hne].
    + rewrite (decide_False (P := x ∈ l)) by done.
      rewrite decide_True; [done|]. apply elem_of_cons; auto.
    + destruct (decide (p ∈ l)) as [Hin|Hin].
      * rewrite decide_True; [done|]. apply elem_of_cons; auto.
      * rewrite decide_False; [done|].
        intros [?|?]%elem_of_cons; done.
Qed.
End per_object_loop.

Lemma update_object_lookup f c obj p :
  objects (update_object obj f c) !! p =
  if decide (p = obj) then f <$> objects c !! p else objects c !! p.
Proof.
  unfold update_object. simpl. destruct (decide (p = obj)) as [->|Hne].
  - apply lookup_alter_eq.
  - by apply lookup_alter_ne.
Qed.

Lemma update_active_lookup f c obj p :
  active_object c = Some obj →
  objects (update_active f c) !! p =
  if decide (p = obj) then f <$> objects c !! p else objects c !! p.
Proof. intros Ha. unfold update_active. rewrite Ha. apply update_object_lookup. Qed.

Lemma update_active_active f c : active_object (update_active f c) = active_object c.
Proof. unfold update_active. by destruct (active_object c) eqn:E. Qed.

(** The active pointer after a run of host calls that do not move it. *)
Ltac solve_active :=
  repeat first [rewrite update_active_active | progress simpl]; done.

Lemma update_active_materials f c : materials (update_active f c) = materials c.
Proof. unfold update_active. by destruct (active_object c) eqn:E. Qed.

(** ** The active-object pointer *)

Lemma transform_resize_active v c :
  active_object (transform_resize v c) = active_object c.
Proof. reflexivity. Qed.

(** C8: every operator that repoints the active-object pointer during its
    per-object pass leaves it, on every execution that returns a finished
    status, equal to its value at entry. *)
Theorem active_object_restored (op : operator) (c : context) :
  res_status (execute op c) = FINISHED →
  active_object (res_context (execute op c)) = active_object c.
Proof.
  intros _. destruct op; simpl.
  - unfold scale_up_execute. by repeat case_bool_decide.
  - unfold scale_down_execute. by repeat case_bool_decide.
  - unfold clean_up_mats_execute. by case_bool_decide.
  - unfold remove_geo_execute.
    destruct (horizon_remove_material c); [|done]. by case_bool_decide.
  - unfold remove_vert_groups_execute. by case_bool_decide.
  - unfold remove_cust_props_execute. by case_bool_decide.
  - unfold triangulate_mod_execute. by case_bool_decide.
Qed.

Lemma active_object_restored_witness :
  res_status (execute RemoveGeo sample_scene) = FINISHED ∧
  active_object (res_context (execute RemoveGeo sample_scene)) = Some 3.
Proof.
  split; [vm_compute; reflexivity|].
  apply (active_object_restored RemoveGeo sample_scene). vm_compute; reflexivity.
Defined.

(** ** Precondition failures *)

(** A scene whose factor is 0 and whose selection is not empty: Scale Up
    cancels, unchanged, and reports nothing. *)
Lemma scale_up_zero_factor_silent :
  precondition_fails ScaleUp (with_factor 0%Qc sample_scene) ∧
  ¬ ((∃ msg, WARNING msg ∈ res_reports (execute ScaleUp (with_factor 0%Qc sample_scene)))
     ∧ res_status (execute ScaleUp (with_factor 0%Qc sample_scene)) = CANCELLED
     ∧ res_context (execute ScaleUp (with_factor 0%Qc sample_scene))
       = with_factor 0%Qc sample_scene).
Proof.
  split.
  - apply nonpositive_factor; [reflexivity|]. simpl. apply Qcle_refl.
  - intros [[msg Hin] _]. vm_compute in Hin. by apply elem_of_nil in Hin.
Qed.

(** C1 (amended): when a precondition fails the operator returns a
    cancelled status and leaves the scene as it was; it reports one
    warning, except that the scale operators reject a non-positive factor
    first and without a report. *)
Theorem precondition_failure_cancels (op : operator) (c : context) :
  precondition_fails op c →
  res_status (execute op c) = CANCELLED ∧
  res_context (execute op c) = c ∧
  (factor_rejected op c = true → res_reports (execute op c) = []) ∧
  (factor_rejected op c = false →
   ∃ msg, res_reports (execute op c) = [WARNING msg]).
Proof.
  intros Hfail. unfold factor_rejected.
  destruct Hfail as [Hsel | Hop Hf | -> Hmat].
  - destruct op; simpl in *.
    + unfold scale_up_execute. case_bool_decide; simpl; [naive_solver|].
      rewrite bool_decide_eq_true_2 by done. naive_solver.
    + unfold scale_down_execute. case_bool_decide; simpl; [naive_solver|].
      rewrite bool_decide_eq_true_2 by done. naive_solver.
    + unfold clean_up_mats_execute.
      rewrite bool_decide_eq_true_2 by done. naive_solver.
    + unfold remove_geo_execute.
      destruct (horizon_remove_material c); [|naive_solver].
      rewrite bool_decide_eq_true_2 by done. naive_solver.
    + unfold remove_vert_groups_execute.
      rewrite bool_decide_eq_true_2 by done. naive_solver.
    + unfold remove_cust_props_execute.
      rewrite bool_decide_eq_true_2 by done. naive_solver.
    + unfold triangulate_mod_execute.
      rewrite bool_decide_eq_true_2 by done. naive_solver.
  - destruct op; simplify_eq/=.
    + unfold scale_up_execute. rewrite !bool_decide_eq_true_2 by done.
      naive_solver.
    + unfold scale_down_execute. rewrite !bool_decide_eq_true_2 by done.
      naive_solver.
  - simpl. unfold remove_geo_execute. rewrite Hmat. naive_solver.
Qed.

Lemma precondition_failure_cancels_witness :
  res_status (execute RemoveGeo (with_remove_material None sample_scene)) = CANCELLED ∧
  res_context (execute RemoveGeo (with_remove_material None sample_scene))
  = with_remove_material None sample_scene ∧
  (factor_rejected RemoveGeo (with_remove_material None sample_scene) = true →
   res_reports (execute RemoveGeo (with_remove_material None sample_scene)) = []) ∧
  (factor_rejected RemoveGeo (with_remove_material None sample_scene) = false →
   ∃ msg, res_reports (execute RemoveGeo (with_remove_material None sample_scene))
          = [WARNING msg]).
Proof.
  apply (precondition_failure_cancels RemoveGeo (with_remove_material None sample_scene)).
  apply no_material; reflexivity.
Defined.

(** ** Triangulate Mod *)


Lemma triangulate_mod_object_lookup c obj p :
  objects (triangulate_mod_object c obj) !! p =
  if decide (p = obj) then add_triangulate <$> objects c !! p else objects c !! p.
Proof. unfold triangulate_mod_object. by rewrite update_object_lookup. Qed.

Lemma triangulate_mod_objects c p :
  objects (res_context (triangulate_mod_execute c)) !! p =
  if decide (p ∈ selected_meshes c)
  then add_triangulate <$> objects c !! p
  else objects c !! p.
Proof.
  unfold triangulate_mod_execute. case_bool_decide as Hsel; simpl.
  - rewrite Hsel. by rewrite decide_False by apply not_elem_of_nil.
  - apply (loop_objects _ _ triangulate_mod_object_lookup),
      NoDup_selected_meshes.
Qed.




(** ** Remove Geo *)

Lemma elem_of_slot_indices_from k mat slots i :
  i ∈ slot_indices_from k mat slots ↔
  k ≤ i ∧ slots !! (i - k) = Some (Some mat).
Proof.
  revert k. induction slots as [|slot rest IH]; intros k; simpl.
  - split; [by intros ?%elem_of_nil|]. intros [_ Hl].
    by rewrite lookup_nil in Hl.
  - case_bool_decide as Hslot.
    + rewrite elem_of_cons, IH. split.
      * intros [->|[Hle Hl]].
        -- split; [lia|]. by rewrite Nat.sub_diag, Hslot.
        -- split; [lia|]. by replace (i - k) with (S (i - S k)) by lia.
      * intros [Hle Hl]. destruct (decide (i = k)) as [->|Hne]; [by left|].
        right. split; [lia|].
        by replace (i - k) with (S (i - S k)) in Hl by lia.
    + rewrite IH. split.
      * intros [Hle Hl]. split; [lia|].
        by replace (i - k) with (S (i - S k)) by lia.
      * intros [Hle Hl]. destruct (decide (i = k)) as [->|Hne].
        -- rewrite Nat.sub_diag in Hl. simpl in Hl. congruence.
        -- split; [lia|]. by replace (i - k) with (S (i - S k)) in Hl by lia.
Qed.

Lemma elem_of_slot_indices mat o f :
  material_index f ∈ slot_indices_from 0 mat (material_slots o) ↔ bound_to mat o f.
Proof.
  rewrite elem_of_slot_indices_from, Nat.sub_0_r. unfold bound_to.
  split; [by intros [_ ?]|split; [lia|done]].
Qed.

Lemma slot_indices_nil mat slots :
  slot_indices_from 0 mat slots = [] ↔ ∀ i, slots !! i ≠ Some (Some mat).
Proof.
  split.
  - intros Hnil i Hi.
    assert (i ∈ slot_indices_from 0 mat slots) as Hin.
    { apply elem_of_slot_indices_from. rewrite Nat.sub_0_r. split; [lia|done]. }
    rewrite Hnil in Hin. by apply elem_of_nil in Hin.
  - intros Hno. destruct (slot_indices_from 0 mat slots) as [|i l] eqn:E; [done|].
    assert (i ∈ slot_indices_from 0 mat slots) as Hin
      by (rewrite E; apply elem_of_cons; auto).
    apply elem_of_slot_indices_from in Hin as [_ Hin].
    rewrite Nat.sub_0_r in Hin. by apply Hno in Hin.
Qed.

(** The faces that survive the select-and-delete sequence are the faces
    whose index is not among the slot indices, deselected. *)
Lemma select_delete_faces (slot_indices : list nat) (fs : list face) :
  filter (λ f, face_select f = false)
         (select_matching slot_indices <$> (set_face_select false <$> fs))
  = set_face_select false
      <$> filter (λ f, material_index f ∉ slot_indices) fs.
Proof.
  induction fs as [|f fs IH]; [done|].
  rewrite !fmap_cons, !filter_cons, IH.
  assert (Hsel : ∀ b, material_index (set_face_select b f) = material_index f)
    by done.
  unfold select_matching. rewrite Hsel.
  destruct (decide (material_index f ∈ slot_indices)) as [Hin|Hin].
  - rewrite bool_decide_eq_true_2 by done. simpl.
    by rewrite decide_False by naive_solver.
  - rewrite bool_decide_eq_false_2 by done. simpl.
    by rewrite decide_True by done.
Qed.


Lemma remove_geo_effect_bound mat o i :
  material_slots o !! i = Some (Some mat) →
  remove_geo_effect mat o
  = set_mode OBJECT
      (set_faces
         (set_face_select false <$> filter (λ f, ¬ bound_to mat o f) (faces o))
         o).
Proof.
  intros Hi. unfold remove_geo_effect.
  rewrite bool_decide_eq_false_2.
  2:{ rewrite slot_indices_nil. intros Hno. by apply (Hno i). }
  unfold select_faces_by_slot, set_mode, set_faces. simpl.
  rewrite select_delete_faces. do 2 f_equal.
  apply list_filter_iff. intros f. by rewrite elem_of_slot_indices.
Qed.

Lemma remove_geo_object_lookup mat c obj p :
  objects (remove_geo_object mat c obj) !! p =
  if decide (p = obj) then remove_geo_effect mat <$> objects c !! p
  else objects c !! p.
Proof.
  unfold remove_geo_object, obj_slots. simpl.
  case_bool_decide as Hnil.
  - simpl. case_decide as Hp; [subst p|done].
    destruct (objects c !! obj) as [o|] eqn:Ho; [simpl|done].
    unfold remove_geo_effect. simpl in Hnil. by rewrite bool_decide_eq_true_2.
  - unfold mode_set, mesh_delete_face, mesh_select_all_deselect.
    rewrite (update_active_lookup _ _ obj) by solve_active.
    rewrite (update_active_lookup _ _ obj) by solve_active.
    rewrite update_object_lookup.
    rewrite (update_active_lookup _ _ obj) by solve_active.
    rewrite (update_active_lookup _ _ obj) by solve_active. simpl.
    case_decide as Hp; [subst p|done].
    destruct (objects c !! obj) as [o|] eqn:Ho; [simpl|done].
    unfold remove_geo_effect. simpl in Hnil.
    by rewrite bool_decide_eq_false_2.
Qed.

Lemma remove_geo_objects c mat p :
  horizon_remove_material c = Some mat →
  objects (res_context (remove_geo_execute c)) !! p =
  if decide (p ∈ selected_meshes c)
  then remove_geo_effect mat <$> objects c !! p
  else objects c !! p.
Proof.
  intros Hmat. unfold remove_geo_execute. rewrite Hmat.
  case_bool_decide as Hsel; simpl.
  - rewrite Hsel. by rewrite decide_False by apply not_elem_of_nil.
  - apply (loop_objects _ _ (remove_geo_object_lookup mat)),
      NoDup_selected_meshes.
Qed.







(** ** Scale Up / Scale Down *)

Lemma apply_scale_step_lookup c obj p :
  objects (transform_apply_scale (set_active (Some obj) c)) !! p =
  if decide (p = obj) then bake_scale <$> objects c !! p else objects c !! p.
Proof.
  unfold transform_apply_scale. by rewrite (update_active_lookup _ _ obj).
Qed.


(** The effect of one scale operator on an object: resize, then bake. *)
Lemma scale_objects (v : vec3) (c : context) (p : obj_ptr) :
  objects (set_active (active_object c)
             (apply_scale_each (selected_objects c) (transform_resize v c))) !! p
  = (λ o, if selected o then bake_scale (resize_object v o) else o)
      <$> objects c !! p.
Proof.
  simpl. unfold apply_scale_each.
  rewrite (loop_objects _ _ apply_scale_step_lookup)
    by apply NoDup_selected_objects.
  simpl. rewrite lookup_fmap.
  destruct (objects c !! p) as [o|] eqn:Ho; simpl.
  - case_decide as Hin.
    + apply elem_of_selected_objects in Hin as (o' & Ho' & Hs).
      simplify_eq. by rewrite Hs.
    + destruct (selected o) eqn:Hs.
      * exfalso. apply Hin, elem_of_selected_objects. eauto.
      * unfold resize_object. by rewrite Hs.
  - by case_decide.
Qed.









(** ** Clean Up Mats *)


Lemma materials_get_None mats name m :
  materials_get mats name = None → mats !! m ≠ Some name.
Proof.
  unfold materials_get. intros Hfind%fmap_None Hm.
  apply list_find_None in Hfind.
  apply elem_of_map_to_list in Hm.
  by apply (proj1 (Forall_forall _ _) Hfind) in Hm.
Qed.

(** One slot of the rename loop: the three outcomes. *)

Lemma process_slot_empty prefix suffix mats :
  process_slot prefix suffix mats None = (None, mats).
Proof. reflexivity. Qed.

Lemma process_slot_untouched prefix suffix mats m name :
  mats !! m = Some name → extracted prefix suffix name = None →
  process_slot prefix suffix mats (Some m) = (Some m, mats).
Proof. intros Hm He. unfold process_slot. by rewrite Hm, He. Qed.




Lemma process_slot_empty_iff prefix suffix mats slot :
  (process_slot prefix suffix mats slot).1 = None ↔ slot = None.
Proof.
  unfold process_slot. destruct slot as [m|]; [|done].
  destruct (mats !! m) as [name|]; [|done].
  destruct (extracted prefix suffix name) as [e|]; [|done].
  by destruct (materials_get mats e).
Qed.

(** The loop over the slots. *)

Lemma rename_slots_cons prefix suffix slot rest mats :
  rename_slots prefix suffix (slot :: rest) mats
  = ((process_slot prefix suffix mats slot).1
       :: (rename_slots prefix suffix rest
             (process_slot prefix suffix mats slot).2).1,
     (rename_slots prefix suffix rest
        (process_slot prefix suffix mats slot).2).2).
Proof. reflexivity. Qed.

Lemma rename_slots_app prefix suffix l1 l2 mats :
  rename_slots prefix suffix (l1 ++ l2) mats
  = (((rename_slots prefix suffix l1 mats).1
       ++ (rename_slots prefix suffix l2
             (rename_slots prefix suffix l1 mats).2).1)%list,
     (rename_slots prefix suffix l2 (rename_slots prefix suffix l1 mats).2).2).
Proof.
  revert mats. induction l1 as [|slot l1 IH]; intros mats; simpl.
  - by destruct (rename_slots prefix suffix l2 mats).
  - by rewrite IH.
Qed.

Lemma rename_slots_length prefix suffix slots mats :
  length (rename_slots prefix suffix slots mats).1 = length slots.
Proof.
  revert mats. induction slots as [|slot rest IH]; intros mats; simpl; [done|].
  by rewrite IH.
Qed.


Lemma rename_slots_empty prefix suffix slots mats :
  Forall2 (λ s s', s = None ↔ s' = None) slots
          (rename_slots prefix suffix slots mats).1.
Proof.
  revert mats. induction slots as [|slot rest IH]; intros mats; simpl.
  - constructor.
  - constructor; [|apply IH]. symmetry. apply process_slot_empty_iff.
Qed.

(** The indices collected for removal come out ascending, so the reversed
    sort is the reverse. *)

Lemma slots_to_remove_from_ge k mats slots :
  Forall (λ i, k ≤ i) (slots_to_remove_from k mats slots).
Proof.
  revert k. induction slots as [|slot rest IH]; intros k; simpl; [constructor|].
  assert (Forall (λ i, k ≤ i) (slots_to_remove_from (S k) mats rest)).
  { eapply Forall_impl; [apply IH|]. simpl. lia. }
  destruct (slot_denied mats slot); [constructor; [lia|done]|done].
Qed.

Lemma slots_to_remove_from_sorted k mats slots :
  Sorted (≤) (slots_to_remove_from k mats slots).
Proof.
  revert k. induction slots as [|slot rest IH]; intros k; simpl; [constructor|].
  destruct (slot_denied mats slot); [|apply IH].
  constructor; [apply IH|].
  pose proof (slots_to_remove_from_ge (S k) mats rest) as Hge.
  destruct Hge; constructor. lia.
Qed.

Local Instance flip_le_trans : Transitive (flip Nat.le).
Proof. intros x y z. unfold flip. lia. Qed.
Local Instance flip_le_antisymm : AntiSymm (=) (flip Nat.le).
Proof. intros x y. unfold flip. lia. Qed.
Local Instance flip_le_total : Total (flip Nat.le).
Proof. intros x y. unfold flip. lia. Qed.

Lemma sorted_reverse_ascending (l : list nat) :
  Sorted (≤) l → sorted_reverse l = reverse l.
Proof.
  intros Hl. unfold sorted_reverse.
  apply (Sorted_unique (flip Nat.le)).
  - apply (Sorted_merge_sort (flip Nat.le)).
  - by apply Sorted_reverse.
  - by rewrite merge_sort_Permutation, reverse_Permutation.
Qed.

(** Deleting the collected indices from the highest down leaves the slots
    that were not collected, in order. *)
Lemma delete_denied (pre suf : list (option mat_ptr)) mats :
  foldl (λ l i, delete i l) (pre ++ suf)
        (reverse (slots_to_remove_from (length pre) mats suf))
  = pre ++ filter (λ s, slot_denied mats s = false) suf.
Proof.
  revert pre. induction suf as [|s rest IH]; intros pre; simpl; [done|].
  specialize (IH (pre ++ [s])).
  rewrite length_app, Nat.add_1_r, <-!app_assoc in IH. simpl in IH.
  destruct (slot_denied mats s) eqn:Hs.
  - rewrite reverse_cons, foldl_snoc, IH.
    rewrite filter_cons_False by by rewrite Hs.
    apply delete_middle.
  - by rewrite IH, filter_cons_True by done.
Qed.

Lemma delete_out_of_range {A} (l : list A) (i : nat) :
  length l ≤ i → delete i l = l.
Proof.
  revert i. induction l as [|x l IH]; intros [|i] Hi; simpl in *;
    [done|done|lia|].
  f_equal. apply IH. lia.
Qed.

Lemma material_slots_remove_active i o :
  material_slots (remove_active_slot (set_active_material_index i o))
  = delete i (material_slots o).
Proof.
  unfold remove_active_slot. simpl. case_decide as Hi; [done|].
  simpl. symmetry. apply delete_out_of_range. lia.
Qed.

Lemma material_slots_remove_slots idxs o :
  material_slots (remove_slots_effect idxs o)
  = foldl (λ l i, delete i l) (material_slots o) idxs.
Proof.
  unfold remove_slots_effect. revert o.
  induction idxs as [|i idxs IH]; intros o; simpl; [done|].
  by rewrite IH, material_slots_remove_active.
Qed.

Lemma remove_slot_at_lookup obj c i p :
  active_object c = Some obj →
  objects (remove_slot_at obj c i) !! p =
  if decide (p = obj)
  then (λ o, remove_active_slot (set_active_material_index i o))
         <$> objects c !! p
  else objects c !! p.
Proof.
  intros Ha. unfold remove_slot_at, material_slot_remove.
  rewrite (update_active_lookup _ _ obj) by done.
  rewrite update_object_lookup. case_decide; [|done].
  by destruct (objects c !! p).
Qed.

Lemma remove_slots_fold obj idxs c :
  active_object c = Some obj →
  active_object (foldl (remove_slot_at obj) c idxs) = Some obj ∧
  materials (foldl (remove_slot_at obj) c idxs) = materials c ∧
  ∀ p, objects (foldl (remove_slot_at obj) c idxs) !! p =
       if decide (p = obj) then remove_slots_effect idxs <$> objects c !! p
       else objects c !! p.
Proof.
  revert c. induction idxs as [|i idxs IH]; intros c Ha; simpl.
  - split_and!; [done..|]. intros p. case_decide; [|done].
    by destruct (objects c !! p).
  - assert (Ha' : active_object (remove_slot_at obj c i) = Some obj).
    { unfold remove_slot_at, material_slot_remove.
      by rewrite update_active_active. }
    destruct (IH _ Ha') as (IHa & IHm & IHo). split_and!; [done| |].
    + rewrite IHm. unfold remove_slot_at, material_slot_remove.
      by rewrite update_active_materials.
    + intros p. rewrite IHo, remove_slot_at_lookup by done.
      case_decide; [|done]. by destruct (objects c !! p).
Qed.

(** The slots that the removal pass keeps. *)
Lemma remove_denied_slots_kept obj c :
  active_object c = Some obj →
  obj_slots (remove_denied_slots obj c) obj
  = filter (λ s, slot_denied (materials c) s = false) (obj_slots c obj).
Proof.
  intros Ha. unfold remove_denied_slots, obj_slots at 1.
  destruct (remove_slots_fold obj
              (sorted_reverse
                 (slots_to_remove_from 0 (materials c) (obj_slots c obj)))
              c Ha) as (_ & _ & Hobj).
  rewrite Hobj, decide_True by done.
  unfold obj_slots. destruct (objects c !! obj) as [o|] eqn:Ho; simpl; [|done].
  rewrite material_slots_remove_slots.
  rewrite sorted_reverse_ascending by apply slots_to_remove_from_sorted.
  apply (delete_denied [] (material_slots o)).
Qed.

Lemma remove_denied_slots_materials obj c :
  active_object c = Some obj →
  materials (remove_denied_slots obj c) = materials c.
Proof.
  intros Ha. unfold remove_denied_slots.
  by destruct (remove_slots_fold obj
                 (sorted_reverse
                    (slots_to_remove_from 0 (materials c) (obj_slots c obj)))
                 c Ha) as (_ & Hm & _).
Qed.

Lemma remove_denied_slots_other obj c p :
  active_object c = Some obj → p ≠ obj →
  objects (remove_denied_slots obj c) !! p = objects c !! p.
Proof.
  intros Ha Hp. unfold remove_denied_slots.
  destruct (remove_slots_fold obj
              (sorted_reverse
                 (slots_to_remove_from 0 (materials c) (obj_slots c obj)))
              c Ha) as (_ & _ & Hobj).
  by rewrite Hobj, decide_False.
Qed.

Lemma remove_denied_slots_is_Some obj c :
  active_object c = Some obj →
  is_Some (objects c !! obj) →
  is_Some (objects (remove_denied_slots obj c) !! obj).
Proof.
  intros Ha [o Ho]. unfold remove_denied_slots.
  destruct (remove_slots_fold obj
              (sorted_reverse
                 (slots_to_remove_from 0 (materials c) (obj_slots c obj)))
              c Ha) as (_ & _ & Hobj).
  rewrite Hobj, decide_True, Ho by done. by eexists.
Qed.

(** The body of the loop over the selected meshes, on the mesh it is
    given: the slots that pass the deny-list, run through the rename
    loop. *)

Lemma objects_set_materials ms c : objects (set_materials ms c) = objects c.
Proof. reflexivity. Qed.

Lemma clean_up_object_materials prefix suffix c obj :
  materials (clean_up_object prefix suffix c obj)
  = (rename_slots prefix suffix (kept_slots c obj) (materials c)).2.
Proof.
  unfold clean_up_object, rename_pass. simpl.
  rewrite remove_denied_slots_kept, remove_denied_slots_materials by done.
  done.
Qed.

Lemma clean_up_object_slots prefix suffix c obj o :
  objects c !! obj = Some o →
  ∃ o', objects (clean_up_object prefix suffix c obj) !! obj = Some o' ∧
        material_slots o'
        = (rename_slots prefix suffix (kept_slots c obj) (materials c)).1.
Proof.
  intros Ho. unfold clean_up_object, rename_pass.
  rewrite remove_denied_slots_kept, remove_denied_slots_materials by done.
  rewrite objects_set_materials, update_object_lookup, decide_True by done.
  destruct (remove_denied_slots_is_Some obj (set_active (Some obj) c))
    as [o1 Ho1]; [done|by eexists|].
  rewrite Ho1. simpl. by eexists.
Qed.

Lemma clean_up_object_other prefix suffix c obj p :
  p ≠ obj →
  objects (clean_up_object prefix suffix c obj) !! p = objects c !! p.
Proof.
  intros Hp. unfold clean_up_object, rename_pass.
  rewrite objects_set_materials, update_object_lookup, decide_False by done.
  by rewrite remove_denied_slots_other.
Qed.



(** The loop over the selected meshes. *)

Lemma clean_up_loop_untouched prefix suffix l c p :
  p ∉ l →
  objects (foldl (clean_up_object prefix suffix) c l) !! p = objects c !! p.
Proof.
  revert c. induction l as [|x l IH]; intros c Hp; simpl; [done|].
  apply not_elem_of_cons in Hp as [Hne Hl].
  rewrite IH by done. by apply clean_up_object_other.
Qed.


(** The scene when the loop reaches a mesh, and what the loop leaves of
    the mesh. *)
Lemma clean_up_loop_reaches prefix suffix l c obj o :
  NoDup l → obj ∈ l → objects c !! obj = Some o →
  ∃ l1 l2 o',
    l = l1 ++ obj :: l2 ∧
    objects (foldl (clean_up_object prefix suffix) c l1) !! obj = Some o ∧
    objects (foldl (clean_up_object prefix suffix) c l) !! obj = Some o' ∧
    material_slots o'
    = (rename_slots prefix suffix
         (kept_slots (foldl (clean_up_object prefix suffix) c l1) obj)
         (materials (foldl (clean_up_object prefix suffix) c l1))).1.
Proof.
  intros Hnd (l1 & l2 & ->)%list_elem_of_split Ho.
  apply NoDup_app in Hnd as (_ & Hl1 & [Hl2 _]%NoDup_cons).
  assert (Hk : objects (foldl (clean_up_object prefix suffix) c l1) !! obj
               = Some o).
  { rewrite clean_up_loop_untouched; [done|].
    intros Hin. apply (Hl1 _ Hin). apply elem_of_cons; auto. }
  destruct (clean_up_object_slots prefix suffix _ obj o Hk) as (o' & Ho' & Hs).
  exists l1, l2, o'. split_and!; [done|done| |done].
  rewrite foldl_app. simpl. by rewrite clean_up_loop_untouched.
Qed.

Lemma clean_up_mats_finished c obj :
  obj ∈ selected_meshes c →
  clean_up_mats_execute c
  = Result FINISHED []
      (set_active (active_object c)
         (foldl (clean_up_object (horizon_mat_prefix c) (horizon_mat_suffix c))
                c (selected_meshes c))).
Proof.
  intros Hin. unfold clean_up_mats_execute.
  rewrite bool_decide_eq_false_2; [done|].
  intros Hnil. rewrite Hnil in Hin. by apply elem_of_nil in Hin.
Qed.


(** The same slot, when the name of its material does not start with the
    prefix: slot and store stay as they are. *)
Lemma rename_slots_at_untouched prefix suffix s1 m s2 mats name :
  (rename_slots prefix suffix s1 mats).2 !! m = Some name →
  Py.startswith name prefix = false →
  (rename_slots prefix suffix (s1 ++ Some m :: s2) mats).1 !! length s1
  = Some (Some m) ∧
  (rename_slots prefix suffix (s1 ++ [Some m]) mats).2
  = (rename_slots prefix suffix s1 mats).2.
Proof.
  intros Hm Hp. rewrite !rename_slots_app, !rename_slots_cons.
  cbn [fst snd rename_slots].
  rewrite (process_slot_untouched _ _ _ _ name)
    by auto using extracted_not_prefixed.
  split; [|done]. apply list_lookup_middle. by rewrite rename_slots_length.
Qed.

(** C2, at the input where the code departs from it: with the default
    prefix and an empty suffix the material "textures/atrium/brick01" is
    not renamed to "brick01"; the name passed to the host is empty. *)
Theorem clean_up_mats_empty_suffix_wipes_name :
  extracted "textures/atrium/" "" "textures/atrium/brick01" = Some "" ∧
  res_status (clean_up_mats_execute empty_suffix_scene) = FINISHED ∧
  materials (res_context (clean_up_mats_execute empty_suffix_scene)) !! 1
  = Some "" ∧
  materials (res_context (clean_up_mats_execute empty_suffix_scene)) !! 1
  ≠ Some "brick01".
Proof. split_and!; [vm_compute; reflexivity..|by vm_compute]. Qed.



Lemma filter_empty_Forall2 (l k : list (option mat_ptr)) :
  Forall2 (λ s s', s = None ↔ s' = None) l k →
  filter (λ s, s = None) l = filter (λ s, s = None) k.
Proof.
  induction 1 as [|s s' l k Hiff _ IH]; [done|].
  rewrite !filter_cons, IH.
  destruct s as [x|], s' as [y|]; simpl; try done.
  - destruct Hiff as [_ Hiff]. by specialize (Hiff eq_refl).
  - destruct Hiff as [Hiff _]. by specialize (Hiff eq_refl).
Qed.

(** C10: Clean Up Mats leaves the empty slots of every selected mesh as
    they are: the removal pass keeps each of them, and the rename loop
    leaves a slot empty exactly when it found it empty, so the mesh has as
    many empty slots after the operator as before, in the same places among
    the slots that were kept. *)
Theorem clean_up_mats_keeps_empty_slots
    (c : context) (obj : obj_ptr) (o : object) :
  obj ∈ selected_meshes c → objects c !! obj = Some o →
  let body := clean_up_object (horizon_mat_prefix c) (horizon_mat_suffix c) in
  let final := res_context (clean_up_mats_execute c) in
  ∃ l1 l2 o',
    selected_meshes c = l1 ++ obj :: l2 ∧
    (let c_k := foldl body c l1 in
     obj_slots c_k obj = material_slots o ∧
     obj_slots (remove_denied_slots obj (set_active (Some obj) c_k)) obj
     = kept_slots c_k obj ∧
     filter (λ s, s = None) (kept_slots c_k obj)
     = filter (λ s, s = None) (material_slots o) ∧
     objects final !! obj = Some o' ∧
     Forall2 (λ s s', s = None ↔ s' = None)
             (kept_slots c_k obj) (material_slots o') ∧
     filter (λ s, s = None) (material_slots o')
     = filter (λ s, s = None) (material_slots o)).
Proof.
  intros Hin Ho body final.
  subst final. rewrite (clean_up_mats_finished c obj) by done.
  cbn [res_context].
  destruct (clean_up_loop_reaches (horizon_mat_prefix c) (horizon_mat_suffix c)
              (selected_meshes c) c obj o)
    as (l1 & l2 & o' & Hl & Hk & Ho' & Hs);
    [apply NoDup_selected_meshes|done..|].
  exists l1, l2, o'. split; [done|]. cbv zeta.
  set (c_k := foldl body c l1).
  assert (Hslots : obj_slots c_k obj = material_slots o).
  { unfold obj_slots. subst c_k body. by rewrite Hk. }
  assert (Hkept : filter (λ s, s = None) (kept_slots c_k obj)
                  = filter (λ s, s = None) (material_slots o)).
  { unfold kept_slots. rewrite Hslots, list_filter_filter.
    apply list_filter_iff. intros s. split; [by intros [? _]|].
    by intros ->. }
  assert (Hall : Forall2 (λ s s', s = None ↔ s' = None)
                   (kept_slots c_k obj) (material_slots o')).
  { rewrite Hs. apply rename_slots_empty. }
  split_and!; [done| |done|done|done|].
  - by rewrite remove_denied_slots_kept.
  - rewrite <-Hkept. symmetry. by apply filter_empty_Forall2.
Qed.

Lemma clean_up_mats_keeps_empty_slots_witness :
  ∃ o', objects (res_context (clean_up_mats_execute sample_scene)) !! 1 = Some o' ∧
        filter (λ s, s = None) (material_slots o') = [None].
Proof.
  destruct (clean_up_mats_keeps_empty_slots sample_scene 1
              (sample_object MESH true (v3 2 2 2)
                 [Some 10; None; Some 11; Some 12]
                 [Face [0; 1; 2] 0 false; Face [0; 1; 2] 2 true;
                  Face [0; 1; 2] 3 false] EDIT))
    as (l1 & l2 & o' & _ & _ & _ & _ & Ho' & _ & Hnone);
    [apply elem_of_selected_meshes; eexists; split_and!; reflexivity
    |reflexivity|].
  exists o'. split; [done|]. by rewrite Hnone.
Defined.




(** * Further properties of the operators *)

(** ** What the loops leave alone *)

Lemma foldl_preserves {A} (P : context → A) (body : context → obj_ptr → context)
    (l : list obj_ptr) (c : context) :
  (∀ c obj, P (body c obj) = P c) → P (foldl body c l) = P c.
Proof.
  intros Hbody. revert c. induction l as [|x l IH]; intros c; simpl; [done|].
  by rewrite IH, Hbody.
Qed.

Lemma update_active_params f c :
  scene_params (update_active f c) = scene_params c.
Proof. unfold update_active. by destruct (active_object c) eqn:E. Qed.

Lemma remove_geo_object_params mat c obj :
  scene_params (remove_geo_object mat c obj) = scene_params c.
Proof.
  unfold remove_geo_object. case_bool_decide; [done|].
  unfold mode_set, mesh_delete_face, mesh_select_all_deselect.
  by rewrite !update_active_params.
Qed.

Lemma remove_geo_object_materials mat c obj :
  materials (remove_geo_object mat c obj) = materials c.
Proof.
  unfold remove_geo_object. case_bool_decide; [done|].
  unfold mode_set, mesh_delete_face, mesh_select_all_deselect.
  by rewrite !update_active_materials.
Qed.

Lemma apply_scale_step_params c obj :
  scene_params (transform_apply_scale (set_active (Some obj) c)) = scene_params c.
Proof. unfold transform_apply_scale. by rewrite update_active_params. Qed.

Lemma apply_scale_step_materials c obj :
  materials (transform_apply_scale (set_active (Some obj) c)) = materials c.
Proof. unfold transform_apply_scale. by rewrite update_active_materials. Qed.

Lemma remove_slots_loop_params obj idxs c :
  scene_params (foldl (remove_slot_at obj) c idxs) = scene_params c.
Proof.
  revert c. induction idxs as [|i idxs IH]; intros c; simpl; [done|].
  rewrite IH. unfold remove_slot_at, material_slot_remove.
  by rewrite update_active_params.
Qed.

Lemma clean_up_object_params prefix suffix c obj :
  scene_params (clean_up_object prefix suffix c obj) = scene_params c.
Proof.
  unfold clean_up_object, rename_pass, remove_denied_slots.
  set (idxs := sorted_reverse _).
  change (scene_params (foldl (remove_slot_at obj) (set_active (Some obj) c) idxs)
          = scene_params c).
  by rewrite remove_slots_loop_params.
Qed.

Lemma set_active_params a c : scene_params (set_active a c) = scene_params c.
Proof. reflexivity. Qed.

Lemma set_active_materials a c : materials (set_active a c) = materials c.
Proof. reflexivity. Qed.

Lemma update_object_params obj f c :
  scene_params (update_object obj f c) = scene_params c.
Proof. reflexivity. Qed.

Lemma update_object_materials obj f c :
  materials (update_object obj f c) = materials c.
Proof. reflexivity. Qed.

Lemma execute_params (op : operator) (c : context) :
  scene_params (res_context (execute op c)) = scene_params c.
Proof.
  destruct op; simpl.
  - unfold scale_up_execute. repeat case_bool_decide; try done.
    cbn [res_context]. rewrite set_active_params. unfold apply_scale_each.
    by rewrite (foldl_preserves scene_params) by apply apply_scale_step_params.
  - unfold scale_down_execute. repeat case_bool_decide; try done.
    cbn [res_context]. rewrite set_active_params. unfold apply_scale_each.
    by rewrite (foldl_preserves scene_params) by apply apply_scale_step_params.
  - unfold clean_up_mats_execute. case_bool_decide; [done|].
    cbn [res_context]. rewrite set_active_params.
    by rewrite (foldl_preserves scene_params)
      by (intros; apply clean_up_object_params).
  - unfold remove_geo_execute.
    destruct (horizon_remove_material c) as [mat|] eqn:Hmat; [|done].
    case_bool_decide; [done|]. cbn [res_context]. rewrite set_active_params.
    by rewrite (foldl_preserves scene_params)
      by (intros; apply remove_geo_object_params).
  - unfold remove_vert_groups_execute. case_bool_decide; [done|].
    cbn [res_context]. rewrite set_active_params.
    by rewrite (foldl_preserves scene_params) by done.
  - unfold remove_cust_props_execute. case_bool_decide; [done|].
    cbn [res_context]. rewrite set_active_params.
    by rewrite (foldl_preserves scene_params) by done.
  - unfold triangulate_mod_execute. case_bool_decide; [done|].
    cbn [res_context]. rewrite set_active_params.
    by rewrite (foldl_preserves scene_params) by done.
Qed.

(** X2: Every operator leaves the four scene parameters as it found them. *)
Theorem operators_keep_scene_params (op : operator) (c : context) :
  scene_params (res_context (execute op c)) = scene_params c.
Proof. apply execute_params. Qed.

Lemma execute_materials (op : operator) (c : context) :
  writes_materials op = false →
  materials (res_context (execute op c)) = materials c.
Proof.
  intros Hop. destruct op; try discriminate; simpl.
  - unfold scale_up_execute. repeat case_bool_decide; try done.
    cbn [res_context]. rewrite set_active_materials. unfold apply_scale_each.
    by rewrite (foldl_preserves materials) by apply apply_scale_step_materials.
  - unfold scale_down_execute. repeat case_bool_decide; try done.
    cbn [res_context]. rewrite set_active_materials. unfold apply_scale_each.
    by rewrite (foldl_preserves materials) by apply apply_scale_step_materials.
  - unfold remove_geo_execute.
    destruct (horizon_remove_material c) as [mat|] eqn:Hmat; [|done].
    case_bool_decide; [done|]. cbn [res_context]. rewrite set_active_materials.
    by rewrite (foldl_preserves materials)
      by (intros; apply remove_geo_object_materials).
  - unfold remove_vert_groups_execute. case_bool_decide; [done|].
    cbn [res_context]. rewrite set_active_materials.
    by rewrite (foldl_preserves materials) by done.
  - unfold remove_cust_props_execute. case_bool_decide; [done|].
    cbn [res_context]. rewrite set_active_materials.
    by rewrite (foldl_preserves materials) by done.
  - unfold triangulate_mod_execute. case_bool_decide; [done|].
    cbn [res_context]. rewrite set_active_materials.
    by rewrite (foldl_preserves materials) by done.
Qed.

(** X3: Only Clean Up Mats writes to the material store: the other six
    operators return with the store they were given. *)
Theorem only_clean_up_mats_writes_materials (op : operator) (c : context) :
  writes_materials op = false →
  materials (res_context (execute op c)) = materials c.
Proof. apply execute_materials. Qed.

Lemma only_clean_up_mats_writes_materials_witness :
  materials (res_context (execute RemoveGeo sample_scene))
  = materials sample_scene.
Proof.
  apply (only_clean_up_mats_writes_materials RemoveGeo sample_scene).
  reflexivity.
Defined.

(** ** The six operators that edit one object at a time *)

Lemma remove_vert_groups_object_lookup c obj p :
  objects (remove_vert_groups_object c obj) !! p =
  if decide (p = obj)
  then (λ o, set_vertex_groups (remove_all_vertex_groups (vertex_groups o)) o)
         <$> objects c !! p
  else objects c !! p.
Proof. unfold remove_vert_groups_object. by rewrite update_object_lookup. Qed.

Lemma remove_cust_props_object_lookup c obj p :
  objects (remove_cust_props_object c obj) !! p =
  if decide (p = obj)
  then (λ o, set_custom_props (remove_props (custom_props o)) o)
         <$> objects c !! p
  else objects c !! p.
Proof. unfold remove_cust_props_object. by rewrite update_object_lookup. Qed.

Lemma not_selected_resize v c p :
  p ∉ selected_objects c →
  (λ o, if selected o then bake_scale (resize_object v o) else o)
    <$> objects c !! p
  = objects c !! p.
Proof.
  intros Hp. destruct (objects c !! p) as [o|] eqn:Ho; [simpl|done].
  destruct (selected o) eqn:Hs; [|done].
  exfalso. apply Hp, elem_of_selected_objects. eauto.
Qed.

Lemma selected_resize v c p :
  p ∈ selected_objects c →
  (λ o, if selected o then bake_scale (resize_object v o) else o)
    <$> objects c !! p
  = (λ o, bake_scale (resize_object v o)) <$> objects c !! p.
Proof.
  intros (o & Ho & Hs)%elem_of_selected_objects. rewrite Ho. simpl.
  by rewrite Hs.
Qed.

Lemma fmap_id_lookup (c : context) (p : obj_ptr) :
  (λ o : object, o) <$> objects c !! p = objects c !! p.
Proof. by destruct (objects c !! p). Qed.

(** The scene an operator returns holds, for each object of the
    operator's selection, the effect of the operator on that object, and
    every other object as it was. *)
Lemma execute_objects (op : operator) (c : context) (p : obj_ptr) :
  writes_materials op = false →
  objects (res_context (execute op c)) !! p =
  if decide (p ∈ relevant_selection op c)
  then object_effect op c <$> objects c !! p
  else objects c !! p.
Proof.
  intros Hop. destruct op; try discriminate; simpl.
  - unfold scale_up_execute, object_effect. cbv zeta. case_bool_decide as Hf.
    { cbn [res_context]. case_decide; [|done]. by rewrite fmap_id_lookup. }
    case_bool_decide as Hsel; cbn [res_context].
    { rewrite Hsel. by rewrite decide_False by apply not_elem_of_nil. }
    rewrite (scale_objects _ c p). case_decide.
    + by apply selected_resize.
    + by apply not_selected_resize.
  - unfold scale_down_execute, object_effect. cbv zeta. case_bool_decide as Hf.
    { cbn [res_context]. case_decide; [|done]. by rewrite fmap_id_lookup. }
    case_bool_decide as Hsel; cbn [res_context].
    { rewrite Hsel. by rewrite decide_False by apply not_elem_of_nil. }
    rewrite (scale_objects _ c p). case_decide.
    + by apply selected_resize.
    + by apply not_selected_resize.
  - unfold object_effect. cbv zeta.
    destruct (horizon_remove_material c) as [mat|] eqn:Hmat.
    + by apply remove_geo_objects.
    + unfold remove_geo_execute. rewrite Hmat. cbn [res_context].
      case_decide; [|done]. by rewrite fmap_id_lookup.
  - unfold remove_vert_groups_execute. case_bool_decide as Hsel;
      cbn [res_context].
    { rewrite Hsel. by rewrite decide_False by apply not_elem_of_nil. }
    apply (loop_objects _ _ remove_vert_groups_object_lookup),
      NoDup_selected_meshes.
  - unfold remove_cust_props_execute. case_bool_decide as Hsel;
      cbn [res_context].
    { rewrite Hsel. by rewrite decide_False by apply not_elem_of_nil. }
    apply (loop_objects _ _ remove_cust_props_object_lookup),
      NoDup_selected_objects.
  - apply triangulate_mod_objects.
Qed.

(** ** Objects outside the selection, and the selection itself *)



Lemma remove_active_slot_frame o :
  type (remove_active_slot o) = type o ∧
  selected (remove_active_slot o) = selected o.
Proof. unfold remove_active_slot. by case_decide. Qed.

Lemma remove_slots_effect_frame idxs o :
  type (remove_slots_effect idxs o) = type o ∧
  selected (remove_slots_effect idxs o) = selected o.
Proof.
  unfold remove_slots_effect. revert o.
  induction idxs as [|i idxs IH]; intros o; simpl; [done|].
  destruct (IH (remove_active_slot (set_active_material_index i o)))
    as [-> ->].
  apply (remove_active_slot_frame (set_active_material_index i o)).
Qed.

Lemma object_effect_frame op c o :
  type (object_effect op c o) = type o ∧
  selected (object_effect op c o) = selected o.
Proof.
  destruct op; unfold object_effect; cbv zeta; try done.
  - case_bool_decide; [done|]. unfold resize_object.
    by destruct (selected o) eqn:Hs.
  - case_bool_decide; [done|]. unfold resize_object.
    by destruct (selected o) eqn:Hs.
  - destruct (horizon_remove_material c); [|done].
    unfold remove_geo_effect. by case_bool_decide.
Qed.

(** The body of the Clean Up Mats loop, on the objects. *)
Lemma clean_up_object_lookup prefix suffix c obj p :
  objects (clean_up_object prefix suffix c obj) !! p =
  if decide (p = obj)
  then (λ o, set_material_slots
               (rename_slots prefix suffix (kept_slots c obj) (materials c)).1
               (remove_slots_effect
                  (sorted_reverse
                     (slots_to_remove_from 0 (materials c) (obj_slots c obj)))
                  o))
         <$> objects c !! p
  else objects c !! p.
Proof.
  case_decide as Hp; [subst p|by apply clean_up_object_other].
  unfold clean_up_object, rename_pass.
  rewrite remove_denied_slots_kept, remove_denied_slots_materials by done.
  rewrite objects_set_materials, update_object_lookup, decide_True by done.
  unfold remove_denied_slots.
  destruct (remove_slots_fold obj
              (sorted_reverse
                 (slots_to_remove_from 0 (materials (set_active (Some obj) c))
                    (obj_slots (set_active (Some obj) c) obj)))
              (set_active (Some obj) c) eq_refl) as (_ & _ & Hobj).
  rewrite Hobj, decide_True by done.
  unfold kept_slots, obj_slots. cbn [objects materials set_active].
  by destruct (objects c !! obj).
Qed.

Lemma clean_up_object_frame prefix suffix c obj p :
  (type <$> objects (clean_up_object prefix suffix c obj) !! p,
   selected <$> objects (clean_up_object prefix suffix c obj) !! p)
  = (type <$> objects c !! p, selected <$> objects c !! p).
Proof.
  rewrite clean_up_object_lookup. case_decide; [|done].
  destruct (objects c !! p) as [o|]; [simpl|done].
  by destruct (remove_slots_effect_frame
                 (sorted_reverse
                    (slots_to_remove_from 0 (materials c) (obj_slots c obj)))
                 o) as [-> ->].
Qed.

Lemma execute_frame (op : operator) (c : context) (p : obj_ptr) :
  type <$> objects (res_context (execute op c)) !! p = type <$> objects c !! p ∧
  selected <$> objects (res_context (execute op c)) !! p
  = selected <$> objects c !! p.
Proof.
  destruct (writes_materials op) eqn:Hop.
  - destruct op; try discriminate. simpl.
    unfold clean_up_mats_execute. case_bool_decide; [done|].
    cbn [res_context].
    pose proof (foldl_preserves
      (λ c, (type <$> objects c !! p, selected <$> objects c !! p))
      (clean_up_object (horizon_mat_prefix c) (horizon_mat_suffix c))
      (selected_meshes c) c
      (λ c' obj, clean_up_object_frame _ _ c' obj p)) as Hfold.
    simpl in Hfold. by simplify_eq.
  - rewrite execute_objects by done. case_decide; [|done].
    destruct (objects c !! p) as [o|]; [simpl|done].
    by destruct (object_effect_frame op c o) as [-> ->].
Qed.

Lemma selected_iff (x y : option object) :
  selected <$> x = selected <$> y →
  (∃ o, x = Some o ∧ selected o = true) ↔ (∃ o, y = Some o ∧ selected o = true).
Proof.
  intros Hs. destruct x as [a|], y as [b|]; simplify_eq/=.
  - split; intros (o & Ho & Hsel); simplify_eq.
    + exists b. split; [done|congruence].
    + exists a. split; [done|congruence].
  - split; intros (o & Ho & _); discriminate.
Qed.

Lemma selected_mesh_iff (x y : option object) :
  type <$> x = type <$> y → selected <$> x = selected <$> y →
  (∃ o, x = Some o ∧ selected o = true ∧ type o = MESH) ↔
  (∃ o, y = Some o ∧ selected o = true ∧ type o = MESH).
Proof.
  intros Ht Hs. destruct x as [a|], y as [b|]; simplify_eq/=.
  - split; intros (o & Ho & Hsel & Hm); simplify_eq.
    + exists b. split_and!; [done|congruence|congruence].
    + exists a. split_and!; [done|congruence|congruence].
  - split; intros (o & Ho & _); discriminate.
Qed.

(** X5: No operator adds or removes an object, changes the type of one, or
    changes the selection: the selected objects and the selected meshes of
    the scene it returns are those of the scene it was given. *)
Theorem operators_keep_selection (op : operator) (c : context) (p : obj_ptr) :
  type <$> objects (res_context (execute op c)) !! p = type <$> objects c !! p ∧
  selected <$> objects (res_context (execute op c)) !! p
  = selected <$> objects c !! p ∧
  (p ∈ selected_objects (res_context (execute op c)) ↔ p ∈ selected_objects c) ∧
  (p ∈ selected_meshes (res_context (execute op c)) ↔ p ∈ selected_meshes c).
Proof.
  destruct (execute_frame op c p) as [Ht Hs]. split_and!; [done|done| |].
  - rewrite !elem_of_selected_objects. by apply selected_iff.
  - rewrite !elem_of_selected_meshes. by apply selected_mesh_iff.
Qed.

(** ** Status and reports *)

Lemma precondition_fails_inv (op : operator) (c : context) :
  precondition_fails op c →
  relevant_selection op c = []
  ∨ (reads_factor op = true ∧ (horizon_scale_factor c ≤ 0)%Qc)
  ∨ (op = RemoveGeo ∧ horizon_remove_material c = None).
Proof. intros [H|H1 H2|H1 H2]; auto. Qed.

Lemma execute_finished_iff (op : operator) (c : context) :
  (res_status (execute op c) = FINISHED ↔ ¬ precondition_fails op c) ∧
  (res_status (execute op c) = FINISHED → res_reports (execute op c) = []).
Proof.
  destruct op; simpl.
  - unfold scale_up_execute. case_bool_decide as Hf; simpl.
    { split; [|done]. split; [done|]. intros Hno. destruct Hno.
      by apply nonpositive_factor. }
    case_bool_decide as Hsel; simpl.
    { split; [|done]. split; [done|]. intros Hno. destruct Hno.
      by apply empty_selection. }
    split; [|done]. split; [|done]. intros _ Hfail.
    apply precondition_fails_inv in Hfail as [?|[[_ ?]|[? _]]];
      simpl in *; done.
  - unfold scale_down_execute. case_bool_decide as Hf; simpl.
    { split; [|done]. split; [done|]. intros Hno. destruct Hno.
      by apply nonpositive_factor. }
    case_bool_decide as Hsel; simpl.
    { split; [|done]. split; [done|]. intros Hno. destruct Hno.
      by apply empty_selection. }
    split; [|done]. split; [|done]. intros _ Hfail.
    apply precondition_fails_inv in Hfail as [?|[[_ ?]|[? _]]];
      simpl in *; done.
  - unfold clean_up_mats_execute. case_bool_decide as Hsel; simpl.
    { split; [|done]. split; [done|]. intros Hno. destruct Hno.
      by apply empty_selection. }
    split; [|done]. split; [|done]. intros _ Hfail.
    apply precondition_fails_inv in Hfail as [?|[[? _]|[? _]]];
      simpl in *; done.
  - unfold remove_geo_execute.
    destruct (horizon_remove_material c) as [mat|] eqn:Hmat; simpl.
    2:{ split; [|done]. split; [done|]. intros Hno. destruct Hno.
        by apply no_material. }
    case_bool_decide as Hsel; simpl.
    { split; [|done]. split; [done|]. intros Hno. destruct Hno.
      by apply empty_selection. }
    split; [|done]. split; [|done]. intros _ Hfail.
    apply precondition_fails_inv in Hfail as [?|[[? _]|[_ ?]]];
      simpl in *; simplify_eq; done.
  - unfold remove_vert_groups_execute. case_bool_decide as Hsel; simpl.
    { split; [|done]. split; [done|]. intros Hno. destruct Hno.
      by apply empty_selection. }
    split; [|done]. split; [|done]. intros _ Hfail.
    apply precondition_fails_inv in Hfail as [?|[[? _]|[? _]]];
      simpl in *; done.
  - unfold remove_cust_props_execute. case_bool_decide as Hsel; simpl.
    { split; [|done]. split; [done|]. intros Hno. destruct Hno.
      by apply empty_selection. }
    split; [|done]. split; [|done]. intros _ Hfail.
    apply precondition_fails_inv in Hfail as [?|[[? _]|[? _]]];
      simpl in *; done.
  - unfold triangulate_mod_execute. case_bool_decide as Hsel; simpl.
    { split; [|done]. split; [done|]. intros Hno. destruct Hno.
      by apply empty_selection. }
    split; [|done]. split; [|done]. intros _ Hfail.
    apply precondition_fails_inv in Hfail as [?|[[? _]|[? _]]];
      simpl in *; done.
Qed.


(** ** Remove Vertex Groups *)

Lemma remove_all_vertex_groups_nil groups :
  remove_all_vertex_groups groups = [].
Proof. induction groups as [|g rest IH]; [done|]. by simpl. Qed.

(** X6: Remove Vertex Groups leaves every selected mesh with no vertex group
    at all, however many it had, and with nothing else changed. *)
Theorem remove_vert_groups_strips_all
    (c : context) (p : obj_ptr) (o : object) :
  objects c !! p = Some o → selected o = true → type o = MESH →
  res_status (remove_vert_groups_execute c) = FINISHED ∧
  objects (res_context (remove_vert_groups_execute c)) !! p
  = Some (set_vertex_groups [] o).
Proof.
  intros Ho Hs Hm.
  assert (Hin : p ∈ selected_meshes c)
    by (apply elem_of_selected_meshes; eauto).
  split.
  - unfold remove_vert_groups_execute. case_bool_decide as Hsel; [|done].
    rewrite Hsel in Hin. by apply elem_of_nil in Hin.
  - rewrite (execute_objects RemoveVertGroups) by done. simpl.
    rewrite decide_True, Ho by done. simpl.
    by rewrite remove_all_vertex_groups_nil.
Qed.

Lemma remove_vert_groups_strips_all_witness :
  vertex_groups <$> objects sample_scene !! 1 = Some ["arm"; "leg"] ∧
  vertex_groups
    <$> objects (res_context (remove_vert_groups_execute sample_scene)) !! 1
  = Some [].
Proof.
  split; [reflexivity|].
  destruct (remove_vert_groups_strips_all sample_scene 1
              (sample_object MESH true (v3 2 2 2)
                 [Some 10; None; Some 11; Some 12]
                 [Face [0; 1; 2] 0 false; Face [0; 1; 2] 2 true;
                  Face [0; 1; 2] 3 false] EDIT))
    as [_ Hp]; [reflexivity..|].
  by rewrite Hp.
Defined.

(** ** Remove Custom Props *)

Lemma str_in_reserved (key : string) :
  Py.str_in key ["_RNA_UI"] = true ↔ key = "_RNA_UI".
Proof.
  rewrite str_in_elem_of, elem_of_cons. split; [|by left].
  intros [?|Hnil]; [done|]. by apply elem_of_nil in Hnil.
Qed.

Lemma remove_props_fold (keys : list string) (m : gmap string Z) (k : string) :
  foldl (λ ps key, if Py.str_in key ["_RNA_UI"] then ps else delete key ps)
        m keys !! k
  = if decide (k ≠ "_RNA_UI" ∧ k ∈ keys) then None else m !! k.
Proof.
  revert m. induction keys as [|x keys IH]; intros m; cbn [foldl].
  - rewrite decide_False; [done|]. intros [_ Hin]. by apply elem_of_nil in Hin.
  - rewrite IH. destruct (decide (k ≠ "_RNA_UI" ∧ k ∈ keys)) as [[Hk Hin]|Hno].
    + rewrite decide_True; [done|]. split; [done|]. apply elem_of_cons; auto.
    + destruct (Py.str_in x ["_RNA_UI"]) eqn:Hx; cbv iota.
      * apply str_in_reserved in Hx as ->.
        rewrite decide_False; [done|]. intros [Hk [?|?]%elem_of_cons]; auto.
      * destruct (decide (k = x)) as [->|Hne].
        -- rewrite lookup_delete_eq. rewrite decide_True; [done|].
           split; [|apply elem_of_cons; auto].
           intros ->. by rewrite (proj2 (str_in_reserved _)) in Hx.
        -- rewrite lookup_delete_ne by done. rewrite decide_False; [done|].
           intros [Hk [?|?]%elem_of_cons]; auto.
Qed.

Lemma remove_props_lookup (props : gmap string Z) (k : string) :
  remove_props props !! k
  = if decide (k = "_RNA_UI") then props !! k else None.
Proof.
  unfold remove_props. rewrite remove_props_fold.
  destruct (decide (k = "_RNA_UI")) as [->|Hk].
  - rewrite decide_False; [done|]. by intros [? _].
  - destruct (props !! k) as [x|] eqn:Hx.
    + rewrite decide_True; [done|]. split; [done|].
      apply list_elem_of_fmap. exists (k, x). split; [done|].
      by apply elem_of_map_to_list.
    + by case_decide.
Qed.

Lemma remove_props_reserved (props : gmap string Z) :
  remove_props props = reserved_props props.
Proof.
  apply map_eq. intros k. rewrite remove_props_lookup.
  unfold reserved_props. rewrite map_lookup_filter.
  destruct (props !! k) as [x|]; simpl; [|by case_decide].
  case_decide as Hk.
  - by rewrite option_guard_True.
  - by rewrite option_guard_False.
Qed.

(** X7: Remove Custom Props leaves on every selected object the reserved key
    "_RNA_UI" with its value, if the object had it, and no other key; the
    rest of the object stays as it was. *)
Theorem remove_cust_props_keeps_reserved_only
    (c : context) (p : obj_ptr) (o : object) :
  objects c !! p = Some o → selected o = true →
  res_status (remove_cust_props_execute c) = FINISHED ∧
  objects (res_context (remove_cust_props_execute c)) !! p
  = Some (set_custom_props (reserved_props (custom_props o)) o) ∧
  ∀ k, reserved_props (custom_props o) !! k
       = if decide (k = "_RNA_UI") then custom_props o !! k else None.
Proof.
  intros Ho Hs.
  assert (Hin : p ∈ selected_objects c)
    by (apply elem_of_selected_objects; eauto).
  split_and!.
  - unfold remove_cust_props_execute. case_bool_decide as Hsel; [|done].
    rewrite Hsel in Hin. by apply elem_of_nil in Hin.
  - rewrite (execute_objects RemoveCustProps) by done. simpl.
    rewrite decide_True, Ho by done. simpl.
    by rewrite remove_props_reserved.
  - intros k. by rewrite <-remove_props_reserved, remove_props_lookup.
Qed.

Lemma remove_cust_props_keeps_reserved_only_witness :
  custom_props
    <$> objects (res_context (remove_cust_props_execute sample_scene)) !! 2
  = Some {[ "_RNA_UI" := 0%Z ]}.
Proof.
  destruct (remove_cust_props_keeps_reserved_only sample_scene 2
              (sample_object CURVE true (v3 1 1 1) [] [] OBJECT))
    as (_ & Hp & _); [reflexivity..|].
  rewrite Hp. reflexivity.
Defined.

(** ** Running an operator on its own result *)

Lemma context_eq (c1 c2 : context) :
  objects c1 = objects c2 → materials c1 = materials c2 →
  active_object c1 = active_object c2 → scene_params c1 = scene_params c2 →
  c1 = c2.
Proof.
  destruct c1, c2. unfold scene_params. simpl. intros -> -> -> Hp.
  by simplify_eq.
Qed.

Lemma execute_active (op : operator) (c : context) :
  active_object (res_context (execute op c)) = active_object c.
Proof.
  destruct op; simpl.
  - unfold scale_up_execute. by repeat case_bool_decide.
  - unfold scale_down_execute. by repeat case_bool_decide.
  - unfold clean_up_mats_execute. by case_bool_decide.
  - unfold remove_geo_execute.
    destruct (horizon_remove_material c); [|done]. by case_bool_decide.
  - unfold remove_vert_groups_execute. by case_bool_decide.
  - unfold remove_cust_props_execute. by case_bool_decide.
  - unfold triangulate_mod_execute. by case_bool_decide.
Qed.

Lemma execute_cancelled_context (op : operator) (c : context) :
  res_status (execute op c) = CANCELLED → res_context (execute op c) = c.
Proof.
  destruct op; simpl.
  - unfold scale_up_execute. by repeat case_bool_decide.
  - unfold scale_down_execute. by repeat case_bool_decide.
  - unfold clean_up_mats_execute. by case_bool_decide.
  - unfold remove_geo_execute.
    destruct (horizon_remove_material c); [|done]. by case_bool_decide.
  - unfold remove_vert_groups_execute. by case_bool_decide.
  - unfold remove_cust_props_execute. by case_bool_decide.
  - unfold triangulate_mod_execute. by case_bool_decide.
Qed.

Lemma relevant_selection_preserved (op : operator) (c : context) (p : obj_ptr) :
  p ∈ relevant_selection op (res_context (execute op c))
  ↔ p ∈ relevant_selection op c.
Proof.
  destruct (execute_frame op c p) as [Ht Hs].
  destruct op; simpl;
    rewrite ?elem_of_selected_objects, ?elem_of_selected_meshes;
    first [by apply selected_iff | by apply selected_mesh_iff].
Qed.

Lemma list_nil_iff_no_elem {A} (l : list A) : l = [] ↔ ∀ x, x ∉ l.
Proof.
  split; [intros -> x; apply not_elem_of_nil|].
  destruct l as [|x l]; [done|]. intros Hno.
  exfalso. apply (Hno x). apply elem_of_cons; auto.
Qed.

(** The preconditions look at the scene parameters and at whether the
    selection is empty, and at nothing else. *)
Lemma precondition_fails_transfer (op : operator) (c c' : context) :
  scene_params c' = scene_params c →
  (∀ p, p ∈ relevant_selection op c' ↔ p ∈ relevant_selection op c) →
  precondition_fails op c → precondition_fails op c'.
Proof.
  unfold scene_params. intros Hp Hsel Hfail.
  inversion Hp as [[Hfactor Hprefix Hsuffix Hmaterial]].
  destruct Hfail as [Hnil|Hop Hf|Hop Hmat].
  - apply empty_selection. apply list_nil_iff_no_elem. intros p Hin.
    apply Hsel in Hin. rewrite Hnil in Hin. by apply elem_of_nil in Hin.
  - apply nonpositive_factor; [done|]. by rewrite Hfactor.
  - apply no_material; [done|]. by rewrite Hmaterial.
Qed.

Lemma object_effect_params (op : operator) (c c' : context) :
  scene_params c' = scene_params c →
  object_effect op c' = object_effect op c.
Proof.
  unfold scene_params, object_effect. intros Hp.
  inversion Hp as [[Hfactor Hprefix Hsuffix Hmaterial]].
  by rewrite Hfactor, Hmaterial.
Qed.

Lemma deselect_filter_again mat o (fs : list face) :
  filter (λ f, ¬ bound_to mat o f)
         (set_face_select false <$> filter (λ f, ¬ bound_to mat o f) fs)
  = set_face_select false <$> filter (λ f, ¬ bound_to mat o f) fs.
Proof.
  induction fs as [|f fs IH]; [done|].
  rewrite filter_cons. case_decide as Hf; [|done].
  rewrite fmap_cons, filter_cons, decide_True by done. by rewrite IH.
Qed.

Lemma remove_geo_effect_idempotent mat o :
  remove_geo_effect mat (remove_geo_effect mat o) = remove_geo_effect mat o.
Proof.
  destruct (slot_indices_from 0 mat (material_slots o)) as [|i l] eqn:Hsi.
  { assert (Hid : remove_geo_effect mat o = o).
    { unfold remove_geo_effect. by rewrite Hsi. }
    by rewrite !Hid. }
  assert (Hi : material_slots o !! i = Some (Some mat)).
  { assert (Hin : i ∈ slot_indices_from 0 mat (material_slots o))
      by (rewrite Hsi; apply elem_of_cons; auto).
    apply elem_of_slot_indices_from in Hin as [_ Hin].
    by rewrite Nat.sub_0_r in Hin. }
  rewrite (remove_geo_effect_bound mat o i Hi).
  rewrite (remove_geo_effect_bound mat _ i) by done.
  unfold set_mode, set_faces. simpl. f_equal.
  rewrite (list_filter_iff _ (λ f, ¬ bound_to mat o f)) by done.
  rewrite deselect_filter_again, <-list_fmap_compose.
  by apply list_fmap_ext.
Qed.

Lemma remove_props_idempotent (props : gmap string Z) :
  remove_props (remove_props props) = remove_props props.
Proof.
  apply map_eq. intros k. rewrite !remove_props_lookup. by case_decide.
Qed.

Lemma object_effect_idempotent (op : operator) (c : context) (o : object) :
  idempotent_operator op = true →
  object_effect op c (object_effect op c o) = object_effect op c o.
Proof.
  intros Hop. destruct op; try discriminate; unfold object_effect; cbv zeta.
  - destruct (horizon_remove_material c); [|done].
    apply remove_geo_effect_idempotent.
  - simpl. by rewrite !remove_all_vertex_groups_nil.
  - simpl. by rewrite remove_props_idempotent.
Qed.

Lemma result_eq (r1 r2 : result) :
  res_status r1 = res_status r2 → res_reports r1 = res_reports r2 →
  res_context r1 = res_context r2 → r1 = r2.
Proof. destruct r1, r2. simpl. by intros -> -> ->. Qed.

(** X8: Remove Geo, Remove Vertex Groups and Remove Custom Props can be run
    again on the scene they returned: the second run returns the same
    status, the same reports and the same scene as the first. *)
Theorem operator_idempotent (op : operator) (c : context) :
  idempotent_operator op = true →
  execute op (res_context (execute op c)) = execute op c.
Proof.
  intros Hop.
  assert (Hw : writes_materials op = false) by by destruct op.
  destruct (res_status (execute op c)) eqn:Hst.
  2:{ by rewrite execute_cancelled_context. }
  assert (Hst2 : res_status (execute op (res_context (execute op c))) = FINISHED).
  { apply execute_finished_iff. intros Hfail.
    apply (proj1 (proj1 (execute_finished_iff op c)) Hst).
    apply (precondition_fails_transfer op (res_context (execute op c)) c);
      [|intros p; symmetry; apply relevant_selection_preserved|done].
    symmetry. apply execute_params. }
  apply result_eq.
  - by rewrite Hst, Hst2.
  - rewrite (proj2 (execute_finished_iff _ _) Hst2).
    by rewrite (proj2 (execute_finished_iff _ _) Hst).
  - apply context_eq.
    + apply map_eq. intros p. rewrite execute_objects by done.
      case_decide as Hin; [|done].
      apply (proj1 (relevant_selection_preserved op c p)) in Hin.
      rewrite (object_effect_params op c (res_context (execute op c)))
        by apply execute_params.
      rewrite (execute_objects op c p), decide_True by done.
      destruct (objects c !! p) as [o|]; [simpl|done].
      by rewrite object_effect_idempotent.
    + by rewrite execute_materials.
    + by rewrite execute_active.
    + apply execute_params.
Qed.

Lemma operator_idempotent_witness :
  execute RemoveGeo (res_context (execute RemoveGeo ten_face_scene))
  = execute RemoveGeo ten_face_scene.
Proof. apply (operator_idempotent RemoveGeo ten_face_scene). reflexivity. Defined.

(** ** Clean Up Mats and the material store *)

Lemma clean_up_loop_store_invariant {A} (P : gmap mat_ptr string → A)
    prefix suffix (l : list obj_ptr) (c : context) :
  (∀ mats slot, P (process_slot prefix suffix mats slot).2 = P mats) →
  P (materials (foldl (clean_up_object prefix suffix) c l)) = P (materials c).
Proof.
  intros Hstep.
  assert (Hslots : ∀ slots mats,
            P (rename_slots prefix suffix slots mats).2 = P mats).
  { induction slots as [|slot rest IH]; intros mats; [done|].
    rewrite rename_slots_cons. cbn [snd]. by rewrite IH, Hstep. }
  apply (foldl_preserves (λ c, P (materials c))).
  intros c' obj. by rewrite clean_up_object_materials, Hslots.
Qed.

Lemma process_slot_dom prefix suffix mats slot :
  dom (process_slot prefix suffix mats slot).2 = dom mats.
Proof.
  unfold process_slot. destruct slot as [m|]; [|done].
  destruct (mats !! m) as [name|] eqn:Hm; [|done].
  destruct (extracted prefix suffix name) as [e|]; [|done].
  destruct (materials_get mats e); [done|]. simpl.
  unfold material_rename. apply dom_insert_lookup_L. by eexists.
Qed.

(** X9: Clean Up Mats adds no material to the store and deletes none: it
    returns with the materials it was given, some of them renamed. *)
Theorem clean_up_mats_keeps_materials (c : context) :
  dom (materials (res_context (clean_up_mats_execute c))) = dom (materials c).
Proof.
  unfold clean_up_mats_execute. case_bool_decide; [done|].
  cbn [res_context]. rewrite set_active_materials.
  apply (clean_up_loop_store_invariant dom). apply process_slot_dom.
Qed.

Lemma process_slot_names_unique prefix suffix mats slot :
  names_unique mats → names_unique (process_slot prefix suffix mats slot).2.
Proof.
  intros Huniq. unfold process_slot. destruct slot as [m|]; [|done].
  destruct (mats !! m) as [name|] eqn:Hm; [|done].
  destruct (extracted prefix suffix name) as [e|]; [|done].
  destruct (materials_get mats e) as [m'|] eqn:Hget; [done|]. simpl.
  unfold material_rename. intros m1 m2 n H1 H2.
  destruct (decide (m1 = m)) as [->|Hne1], (decide (m2 = m)) as [->|Hne2];
    [done| | |].
  - rewrite lookup_insert_eq in H1. rewrite lookup_insert_ne in H2 by done.
    simplify_eq. by apply (materials_get_None _ _ m2) in Hget.
  - rewrite lookup_insert_eq in H2. rewrite lookup_insert_ne in H1 by done.
    simplify_eq. by apply (materials_get_None _ _ m1) in Hget.
  - rewrite lookup_insert_ne in H1, H2 by done. by eapply Huniq.
Qed.

Lemma rename_slots_names_unique prefix suffix slots mats :
  names_unique mats → names_unique (rename_slots prefix suffix slots mats).2.
Proof.
  revert mats. induction slots as [|slot rest IH]; intros mats Hu; [done|].
  rewrite rename_slots_cons. cbn [snd].
  by apply IH, process_slot_names_unique.
Qed.

Lemma clean_up_loop_names_unique prefix suffix (l : list obj_ptr) (c : context) :
  names_unique (materials c) →
  names_unique (materials (foldl (clean_up_object prefix suffix) c l)).
Proof.
  revert c. induction l as [|obj l IH]; intros c Hu; simpl; [done|].
  apply IH. rewrite clean_up_object_materials.
  by apply rename_slots_names_unique.
Qed.

(** X10: Clean Up Mats never gives a material a name that another material
    has: when the names of the store are distinct at entry they are
    distinct when the operator returns. *)
Theorem clean_up_mats_keeps_names_unique (c : context) :
  names_unique (materials c) →
  names_unique (materials (res_context (clean_up_mats_execute c))).
Proof.
  intros Hu. unfold clean_up_mats_execute. case_bool_decide; [done|].
  cbn [res_context]. rewrite set_active_materials.
  by apply clean_up_loop_names_unique.
Qed.

Lemma names_unique_NoDup (mats : gmap mat_ptr string) :
  NoDup (map_to_list mats).*2 → names_unique mats.
Proof.
  intros Hnd m1 m2 name H1 H2.
  apply elem_of_map_to_list, list_elem_of_lookup in H1 as [i Hi].
  apply elem_of_map_to_list, list_elem_of_lookup in H2 as [j Hj].
  assert (i = j) as ->.
  { apply (NoDup_lookup _ i j name Hnd);
      rewrite list_lookup_fmap; [by rewrite Hi|by rewrite Hj]. }
  by simplify_eq.
Qed.

Lemma clean_up_mats_keeps_names_unique_witness :
  names_unique (materials (res_context (clean_up_mats_execute sample_scene))).
Proof.
  apply (clean_up_mats_keeps_names_unique sample_scene).
  apply names_unique_NoDup. apply (bool_decide_unpack _). vm_compute. exact I.
Defined.





(** ** The scale operators, one at a time *)



(** ** The extracted name *)

Lemma slice_to_neg_nonempty (suffix s : string) :
  suffix ≠ "" →
  Py.slice_to_neg (String.length suffix) s
  = Py.take (String.length s - String.length suffix) s.
Proof. intros Hne. by destruct suffix. Qed.

(** X15: For a non-empty suffix, the name extracted from a material name is
    what lies between the prefix and the suffix, or what follows the
    prefix when the rest does not end with the suffix; there is no
    extracted name exactly when the name does not start with the prefix. *)
Theorem extracted_between_prefix_and_suffix (prefix suffix name e : string) :
  suffix ≠ "" →
  (extracted prefix suffix name = Some e ↔
   name = prefix +:+ e +:+ suffix
   ∨ (name = prefix +:+ e ∧ Py.endswith e suffix = false)) ∧
  (extracted prefix suffix name = None ↔ Py.startswith name prefix = false).
Proof.
  intros Hne. split.
  - split.
    + unfold extracted.
      destruct (Py.startswith name prefix) eqn:Hp; [|done].
      apply startswith_inv in Hp.
      set (rest := Py.drop (String.length prefix) name) in *.
      destruct (Py.endswith rest suffix) eqn:Hs.
      * intros [= <-]. left. apply endswith_inv in Hs.
        rewrite slice_to_neg_nonempty by done. by rewrite <-Hs.
      * intros [= <-]. by right.
    + intros [->|[-> Hs]].
      * by apply extracted_suffixed.
      * by apply extracted_unsuffixed.
  - unfold extracted. destruct (Py.startswith name prefix); [|done].
    by destruct (Py.endswith _ suffix).
Qed.

Lemma extracted_between_prefix_and_suffix_witness :
  extracted "textures/atrium/" ".vertex" "textures/atrium/brick01.vertex"
  = Some "brick01".
Proof.
  apply (extracted_between_prefix_and_suffix
           "textures/atrium/" ".vertex" "textures/atrium/brick01.vertex"
           "brick01"); [discriminate|].
  by left.
Defined.

(** With an empty suffix the stop of the slice is 0 for every name that
    starts with the prefix, whatever follows the prefix. *)
Lemma extracted_with_empty_suffix (prefix name : string) :
  extracted prefix "" name
  = if Py.startswith name prefix then Some "" else None.
Proof.
  destruct (Py.startswith name prefix) eqn:Hp.
  - apply startswith_inv in Hp. rewrite Hp. apply extracted_empty_suffix.
  - by apply extracted_not_prefixed.
Qed.

(** ** Registration and the panel *)

Lemma and_then_raised e r stmts :
  foldl and_then (Raised e r) stmts = Raised e r.
Proof. induction stmts as [|s stmts IH]; [done|]. by simpl. Qed.

Lemma run_cons stmt stmts r :
  run (stmt :: stmts) r = and_then (stmt r) (run stmts).
Proof.
  unfold run. simpl. destruct (stmt r) as [r1|e r1]; simpl; [done|].
  apply and_then_raised.
Qed.

Lemma run_app stmts1 stmts2 r :
  run (stmts1 ++ stmts2) r = and_then (run stmts1 r) (run stmts2).
Proof.
  revert r. induction stmts1 as [|s stmts1 IH]; intros r; [done|].
  rewrite <-app_comm_cons, !run_cons.
  destruct (s r) as [r1|e r1]; simpl; [apply IH|done].
Qed.

Lemma run_set_properties (kvs : list (string * property)) (r : registry) :
  run (set_one <$> kvs) r
  = Returned (Registry (foldl (λ m kv, <[kv.1 := kv.2]> m)
                              (scene_properties r) kvs)
                       (registered_classes r)).
Proof.
  revert r. induction kvs as [|kv kvs IH]; intros r; [by destruct r|].
  rewrite fmap_cons, run_cons. unfold set_one at 1, set_scene_property.
  simpl. by rewrite IH.
Qed.

(** A run of [register_class] returns exactly when none of the classes
    was registered before, and then it has added them all. *)
Lemma run_register_classes (cs : list bl_class) (r r' : registry) :
  NoDup cs →
  run (register_class <$> cs) r = Returned r' ↔
  (∀ cls, cls ∈ cs → cls ∉ registered_classes r) ∧
  r' = Registry (scene_properties r) (registered_classes r ++ cs).
Proof.
  revert r. induction cs as [|c cs IH]; intros r Hnd.
  - unfold run. simpl. rewrite app_nil_r. split.
    + intros [= <-]. split; [by intros ? ?%elem_of_nil|by destruct r].
    + intros [_ ->]. by destruct r.
  - apply NoDup_cons in Hnd as [Hc Hnd].
    rewrite fmap_cons, run_cons. unfold register_class at 1.
    case_decide as Hin; simpl.
    + split; [done|]. intros [Hfresh _]. destruct (Hfresh c); [|done].
      apply elem_of_cons; auto.
    + rewrite IH by done. simpl. rewrite <-app_assoc. simpl.
      split; intros [Hfresh ->]; (split; [|done]).
      * intros cls [->|Hcls]%elem_of_cons; [done|].
        intros Hr. apply (Hfresh cls Hcls). apply elem_of_app; auto.
      * intros cls Hcls [Hr|Hr%list_elem_of_singleton]%elem_of_app.
        -- apply (Hfresh cls); [apply elem_of_cons; auto|done].
        -- by subst.
Qed.

Lemma filter_not_in_nil (l : list bl_class) : filter (λ x, x ∉ []) l = l.
Proof.
  induction l as [|x l IH]; [done|].
  rewrite filter_cons_True by apply not_elem_of_nil. by rewrite IH.
Qed.

(** A run of [unregister_class] returns exactly when all of the classes
    were registered, and then it has removed them and no other. *)
Lemma run_unregister_classes (cs : list bl_class) (r r' : registry) :
  NoDup cs →
  run (unregister_class <$> cs) r = Returned r' ↔
  (∀ cls, cls ∈ cs → cls ∈ registered_classes r) ∧
  r' = Registry (scene_properties r)
                (filter (λ x, x ∉ cs) (registered_classes r)).
Proof.
  revert r. induction cs as [|c cs IH]; intros r Hnd.
  - unfold run. simpl. rewrite filter_not_in_nil. split.
    + intros [= <-]. split; [by intros ? ?%elem_of_nil|by destruct r].
    + intros [_ ->]. by destruct r.
  - apply NoDup_cons in Hnd as [Hc Hnd].
    rewrite fmap_cons, run_cons. unfold unregister_class at 1.
    case_decide as Hin; simpl.
    + rewrite IH by done. simpl.
      assert (Hfilter :
        filter (λ x, x ∉ cs) (filter (λ x, x ≠ c) (registered_classes r))
        = filter (λ x, x ∉ c :: cs) (registered_classes r)).
      { rewrite list_filter_filter. apply list_filter_iff. intros x.
        rewrite not_elem_of_cons. tauto. }
      rewrite Hfilter. split; intros [Hall ->]; (split; [|done]).
      * intros cls [->|Hcls]%elem_of_cons; [done|].
        by apply Hall, list_elem_of_filter in Hcls as [_ ?].
      * intros cls Hcls. apply list_elem_of_filter. split.
        -- intros ->. done.
        -- apply Hall, elem_of_cons; auto.
    + split; [done|]. intros [Hall _]. destruct Hin.
      apply Hall, elem_of_cons; auto.
Qed.

(** A run of [del] returns exactly when all of the attributes were there. *)
Lemma run_del_properties (attrs : list string) (r r' : registry) :
  NoDup attrs →
  run (del_scene_property <$> attrs) r = Returned r' ↔
  (∀ attr, attr ∈ attrs → is_Some (scene_properties r !! attr)) ∧
  r' = Registry (deleted attrs (scene_properties r)) (registered_classes r).
Proof.
  revert r. induction attrs as [|a attrs IH]; intros r Hnd.
  - unfold run. simpl. split.
    + intros [= <-]. split; [by intros ? ?%elem_of_nil|by destruct r].
    + intros [_ ->]. by destruct r.
  - apply NoDup_cons in Hnd as [Ha Hnd].
    rewrite fmap_cons, run_cons. unfold del_scene_property at 1.
    destruct (scene_properties r !! a) as [prop|] eqn:Hprop; simpl.
    + rewrite IH by done. simpl. split; intros [Hall ->]; (split; [|done]).
      * intros attr [->|Hattr]%elem_of_cons; [by eexists|].
        specialize (Hall attr Hattr).
        rewrite lookup_delete_ne in Hall; [done|]. by intros ->.
      * intros attr Hattr. rewrite lookup_delete_ne by by intros ->.
        apply Hall, elem_of_cons; auto.
    + split; [done|]. intros [Hall _].
      destruct (Hall a) as [? Hsome]; [apply elem_of_cons; auto|].
      congruence.
Qed.

Lemma deleted_lookup (attrs : list string) (m : gmap string property) attr :
  deleted attrs m !! attr = if decide (attr ∈ attrs) then None else m !! attr.
Proof.
  unfold deleted. revert m. induction attrs as [|a attrs IH]; intros m; simpl.
  - done.
  - rewrite IH. destruct (decide (attr ∈ attrs)) as [Hin|Hin].
    + rewrite decide_True; [done|]. apply elem_of_cons; auto.
    + destruct (decide (attr = a)) as [->|Hne].
      * rewrite lookup_delete_eq. rewrite decide_True; [done|].
        apply elem_of_cons; auto.
      * rewrite lookup_delete_ne by done. rewrite decide_False; [done|].
        intros [?|?]%elem_of_cons; done.
Qed.

Lemma NoDup_horizon_classes : NoDup horizon_classes.
Proof. apply (bool_decide_unpack _). vm_compute. exact I. Qed.

Lemma NoDup_horizon_attrs : NoDup horizon_attrs.
Proof. apply (bool_decide_unpack _). vm_compute. exact I. Qed.

Lemma NoDup_reverse_horizon_classes : NoDup (reverse horizon_classes).
Proof. rewrite reverse_Permutation. apply NoDup_horizon_classes. Qed.

Lemma NoDup_reverse_horizon_attrs : NoDup (reverse horizon_attrs).
Proof. rewrite reverse_Permutation. apply NoDup_horizon_attrs. Qed.

Lemma register_unfold r :
  register r
  = and_then (run (set_one <$> horizon_properties) r)
             (run (register_class <$> horizon_classes)).
Proof. by rewrite <-run_app. Qed.

Lemma unregister_unfold r :
  unregister r
  = and_then (run (unregister_class <$> reverse horizon_classes) r)
             (run (del_scene_property <$> reverse horizon_attrs)).
Proof. by rewrite <-run_app. Qed.

Lemma register_returns (r r' : registry) :
  register r = Returned r' ↔
  (∀ cls, cls ∈ horizon_classes → cls ∉ registered_classes r) ∧
  r' = Registry (with_horizon_properties (scene_properties r))
                (registered_classes r ++ horizon_classes).
Proof.
  rewrite register_unfold, run_set_properties. cbn [and_then].
  by rewrite run_register_classes by apply NoDup_horizon_classes.
Qed.

Lemma unregister_returns (r r' : registry) :
  unregister r = Returned r' ↔
  (∀ cls, cls ∈ horizon_classes → cls ∈ registered_classes r) ∧
  (∀ attr, attr ∈ horizon_attrs → is_Some (scene_properties r !! attr)) ∧
  r' = Registry (deleted (reverse horizon_attrs) (scene_properties r))
                (filter (λ x, x ∉ horizon_classes) (registered_classes r)).
Proof.
  rewrite unregister_unfold.
  assert (Hfilter : ∀ l : list bl_class,
            filter (λ x, x ∉ reverse horizon_classes) l
            = filter (λ x, x ∉ horizon_classes) l).
  { intros l. apply list_filter_iff. intros x. by rewrite elem_of_reverse. }
  destruct (run (unregister_class <$> reverse horizon_classes) r)
    as [r1|e r1] eqn:Hrun; cbn [and_then].
  - apply run_unregister_classes in Hrun as [Hall ->];
      [|apply NoDup_reverse_horizon_classes].
    rewrite run_del_properties by apply NoDup_reverse_horizon_attrs.
    cbn [scene_properties registered_classes]. rewrite Hfilter. split.
    + intros [Hattrs ->]. split_and!; [|by intros attr ?; apply Hattrs,
        elem_of_reverse|done].
      intros cls ?. by apply Hall, elem_of_reverse.
    + intros (_ & Hattrs & ->). split; [|done].
      intros attr ?%elem_of_reverse. by apply Hattrs.
  - split; [done|]. intros (Hall & _ & _).
    assert (Hret : run (unregister_class <$> reverse horizon_classes) r
                   = Returned
                       (Registry (scene_properties r)
                          (filter (λ x, x ∉ reverse horizon_classes)
                                  (registered_classes r)))).
    { apply run_unregister_classes;
        [apply NoDup_reverse_horizon_classes|].
      split; [|done]. intros cls ?%elem_of_reverse. by apply Hall. }
    congruence.
Qed.

Lemma with_horizon_properties_lookup (m : gmap string property) (attr : string) :
  with_horizon_properties m !! attr
  = match list_to_map (M := gmap string property) horizon_properties !! attr with
    | Some prop => Some prop
    | None => m !! attr
    end.
Proof.
  unfold with_horizon_properties, horizon_properties. simpl.
  rewrite !lookup_insert. by repeat case_decide; subst.
Qed.

Lemma registry_eq (r1 r2 : registry) :
  scene_properties r1 = scene_properties r2 →
  registered_classes r1 = registered_classes r2 → r1 = r2.
Proof. destruct r1, r2. simpl. by intros -> ->. Qed.

Lemma filter_all (P : bl_class → Prop) `{!∀ x, Decision (P x)} (l : list bl_class) :
  (∀ x, x ∈ l → P x) → filter P l = l.
Proof.
  induction l as [|x l IH]; intros Hall; [done|].
  rewrite filter_cons_True by (apply Hall, elem_of_cons; auto).
  rewrite IH; [done|]. intros y Hy. apply Hall, elem_of_cons; auto.
Qed.

Lemma filter_none (P : bl_class → Prop) `{!∀ x, Decision (P x)} (l : list bl_class) :
  (∀ x, x ∈ l → ¬ P x) → filter P l = [].
Proof.
  induction l as [|x l IH]; intros Hall; [done|].
  rewrite filter_cons_False by (apply Hall, elem_of_cons; auto).
  apply IH. intros y Hy. apply Hall, elem_of_cons; auto.
Qed.

Lemma horizon_attr_lookup (attr : string) :
  attr ∈ horizon_attrs ↔
  is_Some (list_to_map (M := gmap string property) horizon_properties !! attr).
Proof.
  split.
  - intros Hin. unfold horizon_attrs, horizon_properties in Hin. simpl in Hin.
    repeat (apply elem_of_cons in Hin as [->|Hin]; [by eexists|]).
    by apply elem_of_nil in Hin.
  - intros [prop Hprop]. unfold horizon_properties in Hprop. simpl in Hprop.
    rewrite !lookup_insert in Hprop.
    repeat case_decide; subst;
      try (apply (bool_decide_unpack _); vm_compute; exact I).
    by rewrite lookup_empty in Hprop.
Qed.

(** X16: [register] returns exactly when none of the eight classes of the
    add-on is registered yet.  It has then registered the eight classes
    after the classes that were there, and set the four scene attributes,
    over any attribute of the same name, leaving the other attributes. *)
Theorem register_returns_iff_fresh (r r' : registry) :
  register r = Returned r' ↔
  (∀ cls, cls ∈ horizon_classes → cls ∉ registered_classes r) ∧
  registered_classes r' = registered_classes r ++ horizon_classes ∧
  ∀ attr, scene_properties r' !! attr
          = match list_to_map (M := gmap string property)
                    horizon_properties !! attr with
            | Some prop => Some prop
            | None => scene_properties r !! attr
            end.
Proof.
  rewrite register_returns. split.
  - intros [Hfresh ->]. split_and!; [done..|].
    intros attr. apply with_horizon_properties_lookup.
  - intros (Hfresh & Hcls & Hprops). split; [done|].
    apply registry_eq; [|done]. cbn [scene_properties].
    apply map_eq. intros attr.
    by rewrite Hprops, with_horizon_properties_lookup.
Qed.

(** X17: [unregister] after [register] gives back the classes that were
    registered before and the scene attributes that were there before,
    except any that had the name of one of the four attributes of the
    add-on; on a registry that had none of these it gives back the
    registry itself. *)
Theorem unregister_undoes_register (r : registry) :
  (∀ cls, cls ∈ horizon_classes → cls ∉ registered_classes r) →
  ∃ r' r'',
    register r = Returned r' ∧ unregister r' = Returned r'' ∧
    registered_classes r'' = registered_classes r ∧
    (∀ attr, scene_properties r'' !! attr
             = if decide (attr ∈ horizon_attrs) then None
               else scene_properties r !! attr) ∧
    ((∀ attr, attr ∈ horizon_attrs → scene_properties r !! attr = None) →
     r'' = r).
Proof.
  intros Hfresh.
  set (r' := Registry (with_horizon_properties (scene_properties r))
                      (registered_classes r ++ horizon_classes)).
  set (r'' := Registry (deleted (reverse horizon_attrs) (scene_properties r'))
                       (filter (λ x, x ∉ horizon_classes)
                               (registered_classes r'))).
  assert (Hcls : registered_classes r'' = registered_classes r).
  { subst r'' r'. simpl. rewrite filter_app.
    rewrite filter_all by (intros x Hx Hc; by apply (Hfresh x)).
    rewrite filter_none by (intros x Hx Hno; by apply Hno).
    by rewrite app_nil_r. }
  assert (Hprops : ∀ attr, scene_properties r'' !! attr
             = if decide (attr ∈ horizon_attrs) then None
               else scene_properties r !! attr).
  { intros attr. subst r'' r'. cbn [scene_properties].
    rewrite deleted_lookup, with_horizon_properties_lookup.
    destruct (decide (attr ∈ horizon_attrs)) as [Hin|Hin].
    - rewrite decide_True; [done|]. by apply elem_of_reverse.
    - rewrite decide_False by by rewrite elem_of_reverse.
      rewrite horizon_attr_lookup in Hin.
      destruct (list_to_map horizon_properties !! attr) eqn:E; [|done].
      destruct Hin. by eexists. }
  exists r', r''. split_and!; [| |done|done|].
  - by apply register_returns.
  - apply unregister_returns. split_and!; [| |done].
    + intros cls Hc. subst r'. simpl. apply elem_of_app; auto.
    + intros attr Hattr. subst r'. cbn [scene_properties].
      rewrite with_horizon_properties_lookup.
      apply horizon_attr_lookup in Hattr as [prop Hprop]. rewrite Hprop.
      by eexists.
  - intros Habsent. apply registry_eq; [|done]. apply map_eq. intros attr.
    rewrite Hprops. case_decide; [|done]. symmetry. by apply Habsent.
Qed.

Lemma sample_registry_fresh :
  ∀ cls, cls ∈ horizon_classes → cls ∉ registered_classes sample_registry.
Proof.
  apply Forall_forall. apply (bool_decide_unpack _). vm_compute. exact I.
Qed.

Lemma unregister_undoes_register_witness :
  ∃ r', register sample_registry = Returned r' ∧
        unregister r' = Returned sample_registry.
Proof.
  destruct (unregister_undoes_register sample_registry sample_registry_fresh)
    as (r' & r'' & Hreg & Hunreg & _ & _ & Hsame).
  exists r'. split; [done|]. rewrite Hunreg. f_equal. apply Hsame.
  intros attr Hattr. apply lookup_singleton_ne.
  intros <-. revert Hattr. apply (bool_decide_unpack _). vm_compute. exact I.
Defined.

Lemma run_set_horizon_properties (r : registry) :
  run (set_one <$> horizon_properties) r
  = Returned (Registry (with_horizon_properties (scene_properties r))
                       (registered_classes r)).
Proof. apply run_set_properties. Qed.

Lemma run_register_classes_raises (r : registry) :
  HorizonScaleUpOperator ∈ registered_classes r →
  run (register_class <$> horizon_classes) r
  = Raised (ValueError "HorizonScaleUpOperator") r.
Proof.
  intros Hin. unfold horizon_classes. rewrite fmap_cons, run_cons.
  unfold register_class at 1. by rewrite decide_True.
Qed.

Lemma with_horizon_properties_twice (m : gmap string property) :
  with_horizon_properties (with_horizon_properties m) = with_horizon_properties m.
Proof.
  apply map_eq. intros attr. rewrite !with_horizon_properties_lookup.
  by destruct (list_to_map horizon_properties !! attr).
Qed.

(** X18: Neither function can be run twice in a row.  After a [register] that
    returned, a second [register] raises at the first class, which is
    registered already; after an [unregister] that returned, a second
    [unregister] raises at the panel, which is gone.  Both leave the
    registry as the first run left it. *)
Theorem register_unregister_not_repeatable (r r' : registry) :
  (register r = Returned r' →
   register r' = Raised (ValueError "HorizonScaleUpOperator") r') ∧
  (unregister r = Returned r' →
   unregister r' = Raised (RuntimeError "HorizonPanel") r').
Proof.
  split.
  - intros [_ ->]%register_returns.
    rewrite register_unfold, run_set_horizon_properties. cbn [and_then].
    cbn [scene_properties registered_classes].
    rewrite with_horizon_properties_twice.
    apply run_register_classes_raises. cbn [registered_classes].
    apply elem_of_app. right. apply elem_of_cons; auto.
  - intros (_ & _ & ->)%unregister_returns.
    unfold unregister. rewrite run_cons. unfold unregister_class at 1.
    cbn [registered_classes]. rewrite decide_False; [done|].
    intros [Hno _]%list_elem_of_filter. apply Hno.
    apply (bool_decide_unpack _). vm_compute. exact I.
Qed.

Lemma register_unregister_not_repeatable_witness :
  register sample_registered
  = Raised (ValueError "HorizonScaleUpOperator") sample_registered
  ∧ unregister sample_registry
    = Raised (RuntimeError "HorizonPanel") sample_registry.
Proof.
  split.
  - apply (register_unregister_not_repeatable sample_registry sample_registered).
    vm_compute. reflexivity.
  - apply (register_unregister_not_repeatable sample_registered sample_registry).
    vm_compute. reflexivity.
Defined.

Lemma resolves_operator_button (r : registry) (op : operator) (text : string) :
  operator_class op ∈ registered_classes r →
  resolves r (OperatorButton (bl_idname (operator_class op)) text).
Proof. intros Hin. exists (operator_class op). by destruct op. Qed.

(** X19: After a [register] that returned, the host can resolve every widget
    that the panel draws: each field names a scene attribute that exists
    and each button names a registered operator class; and each of the
    seven operators has its button on the panel. *)
Theorem panel_widgets_resolve (r r' : registry) :
  register r = Returned r' →
  Forall (resolves r') (widgets HorizonPanel_draw) ∧
  ∀ op, ∃ text,
    OperatorButton (bl_idname (operator_class op)) text
    ∈ widgets HorizonPanel_draw.
Proof.
  intros [_ ->]%register_returns. split.
  - assert (Hcls : ∀ op, operator_class op
                         ∈ registered_classes
                             (Registry
                                (with_horizon_properties (scene_properties r))
                                (registered_classes r ++ horizon_classes))).
    { intros op. cbn [registered_classes]. apply elem_of_app. right.
      destruct op; apply (bool_decide_unpack _); vm_compute; exact I. }
    assert (Hattr : ∀ attr text, attr ∈ horizon_attrs →
              resolves (Registry
                          (with_horizon_properties (scene_properties r))
                          (registered_classes r ++ horizon_classes))
                       (PropField attr text)).
    { intros attr text [prop Hprop]%horizon_attr_lookup.
      unfold resolves. cbn [scene_properties].
      rewrite with_horizon_properties_lookup, Hprop. by eexists. }
    unfold HorizonPanel_draw, widgets. simpl.
    repeat apply Forall_cons_2; try apply Forall_nil_2;
      first [ apply Hattr; apply (bool_decide_unpack _); vm_compute; exact I
            | apply (resolves_operator_button _ ScaleUp), Hcls
            | apply (resolves_operator_button _ ScaleDown), Hcls
            | apply (resolves_operator_button _ CleanUpMats), Hcls
            | apply (resolves_operator_button _ RemoveGeo), Hcls
            | apply (resolves_operator_button _ RemoveVertGroups), Hcls
            | apply (resolves_operator_button _ RemoveCustProps), Hcls
            | apply (resolves_operator_button _ TriangulateMod), Hcls ].
  - intros op.
    destruct op;
      [ exists "Scale Up" | exists "Scale Down" | exists "Clean Up Mats"
      | exists "Remove Geo" | exists "Remove Vert Groups"
      | exists "Remove Cust Props" | exists "Triangulate Mod" ];
      apply (bool_decide_unpack _); vm_compute; exact I.
Qed.

Lemma panel_widgets_resolve_witness :
  Forall (resolves sample_registered) (widgets HorizonPanel_draw).
Proof.
  apply (panel_widgets_resolve sample_registry sample_registered).
  vm_compute. reflexivity.
Defined.

(** ** What Remove Geo and Clean Up Mats leave of a mesh *)



Lemma remove_active_slot_material_free o :
  material_free_part (remove_active_slot o) = material_free_part o.
Proof.
  unfold remove_active_slot. case_decide; [|done].
  unfold material_free_part. simpl. f_equal.
  rewrite <-list_fmap_compose. apply list_fmap_ext. intros i f _.
  unfold reindex_face. simpl. by case_match.
Qed.

Lemma remove_slots_effect_material_free idxs o :
  material_free_part (remove_slots_effect idxs o) = material_free_part o.
Proof.
  unfold remove_slots_effect. revert o.
  induction idxs as [|i idxs IH]; intros o; simpl; [done|].
  by rewrite IH, remove_active_slot_material_free.
Qed.

Lemma clean_up_object_material_free prefix suffix c obj p :
  material_free_part <$> objects (clean_up_object prefix suffix c obj) !! p
  = material_free_part <$> objects c !! p.
Proof.
  rewrite clean_up_object_lookup. case_decide; [|done].
  destruct (objects c !! p) as [o|]; [simpl|done]. f_equal.
  apply (remove_slots_effect_material_free _ o).
Qed.

(** X12: Clean Up Mats touches nothing of any object but its material slots,
    the slot indices of its faces and its active material index: the
    transform, the vertex data, the vertex groups, the custom properties,
    the modifiers and the mode stay, and no face is added or deleted. *)
Theorem clean_up_mats_touches_only_materials (c : context) (p : obj_ptr) :
  material_free_part <$> objects (res_context (clean_up_mats_execute c)) !! p
  = material_free_part <$> objects c !! p.
Proof.
  unfold clean_up_mats_execute. case_bool_decide; [done|].
  cbn [res_context].
  apply (foldl_preserves (λ c, material_free_part <$> objects c !! p)).
  intros c' obj. apply clean_up_object_material_free.
Qed.
